(** * vtt-ordem: the dice-notation interpreter of [dice_utils.py]

  A shallow embedding of [parse_dice_expression], [roll_dice] and
  [validate_dice_expression] (dice_utils.py) and of the part of
  [roll_dice_endpoint] (main.py) that decides what the client sees,
  followed by the properties the specification states about them.

  Modelling conventions.
  - A Python [str] is a [string]; a character is a code point below 256.
    In that range the only decimal digits are '0'..'9', which is what
    [\d] and [int()] see.
  - A Python [int] is a [Z]; [int()] and [str()] convert numbers of any
    length (the interpreter's optional limit on the number of digits of
    a conversion is left out).
  - A raised exception is the [Raise] branch of [result]; the class of
    the exception and its message are kept, because [except ValueError]
    filters on the first and [str(e)] reads the second.
  - The module-level random generator is an explicit state [rng] that is
    threaded through every draw and survives a raised exception.
  - [re.findall] runs a backtracking matcher with capture groups over a
    regular-expression syntax tree; the pattern of the source is a term
    of that syntax.
  - The endpoints of main.py that write (module [Api]) run over the
    committed content of the database, passed in and out; what the
    environment supplies (the id the database assigns, [uuid.uuid4()],
    [datetime.utcnow()]) is an argument.  The two endpoints that read the
    chat call [json.loads] and are left out. *)

From Stdlib Require Import ZArith List String Ascii Bool Lia.
From Stdlib Require Import Decimal DecimalString DecimalZ DecimalN.
Import ListNotations.

#[local] Open Scope string_scope.
#[local] Open Scope Z_scope.

(* ================================================================== *)
(** * Definitions *)
(* ================================================================== *)

(** ** Exceptions and results *)

Inductive exn : Type :=
| ValueError (msg : string)
| IndexError (msg : string).

(** [str(e)] of an exception raised with one argument. *)
Definition str_exn (e : exn) : string :=
match e with
| ValueError msg => msg
| IndexError msg => msg
end.

Inductive result (A : Type) : Type :=
| Ok (a : A)
| Raise (e : exn).

Arguments Ok {A} a.
Arguments Raise {A} e.

Definition bind {A B : Type} (m : result A) (f : A -> result B) : result B :=
match m with
| Ok a => f a
| Raise e => Raise e
end.

Notation "x <- m ;; k" := (bind m (fun x => k))
(at level 61, m at next level, right associativity).
Notation "' p <- m ;; k" := (bind m (fun x => match x with p => k end))
(at level 61, p pattern, m at next level, right associativity).

(** ** Python built-ins on strings and integers *)

Module Py.

Definition code (c : ascii) : N := N_of_ascii c.

(** The decimal digits among the code points below 256. *)
Definition is_digit (c : ascii) : bool :=
  ((48 <=? code c) && (code c <=? 57))%N.

(** [str.lower] on one code point: 'A'..'Z', and the upper-case letters
    of the Latin-1 block (U+00C0..U+00DE but the sign U+00D7). *)
Definition lower_char (c : ascii) : ascii :=
  let n := code c in
  if ((65 <=? n) && (n <=? 90))%N then ascii_of_N (n + 32)
  else if ((192 <=? n) && (n <=? 222) && negb (n =? 215))%N
       then ascii_of_N (n + 32)
       else c.

Fixpoint lower (s : string) : string :=
  match s with
  | EmptyString => EmptyString
  | String c s' => String (lower_char c) (lower s')
  end.

(** [s.replace(old, new)] for a one-character [old]. *)
Fixpoint replace (old : ascii) (new : string) (s : string) : string :=
  match s with
  | EmptyString => EmptyString
  | String c s' =>
      if Ascii.eqb c old then new ++ replace old new s'
      else String c (replace old new s')
  end.

(** [str(n)] of an integer. *)
Definition str (n : Z) : string := NilEmpty.string_of_int (Z.to_int n).

(** The format [{n:+d}]: the sign is always written. *)
Definition format_plus_d (n : Z) : string :=
  if n <? 0 then str n else "+" ++ str n.

Definition repr (s : string) : string := "'" ++ s ++ "'".

Definition digits_value (s : string) : option Z :=
  option_map Z.of_uint (NilZero.uint_of_string s).

(** [int(s)] in base 10, for text without blanks or underscores: an
    optional sign and at least one digit. *)
Definition int (s : string) : result Z :=
  let bad := Raise (ValueError
               ("invalid literal for int() with base 10: " ++ repr s)) in
  match s with
  | String "+" ds =>
      match digits_value ds with Some v => Ok v | None => bad end
  | String "-" ds =>
      match digits_value ds with Some v => Ok (- v) | None => bad end
  | _ =>
      match digits_value s with Some v => Ok v | None => bad end
  end.

(** [sep.join(parts)]. *)
Fixpoint join (sep : string) (parts : list string) : string :=
  match parts with
  | [] => ""
  | [p] => p
  | p :: rest => p ++ sep ++ join sep rest
  end.

(** [sum(xs)]. *)
Definition sum (xs : list Z) : Z := fold_left Z.add xs 0.

(** [xs[i]] for a non-negative index. *)
Definition getitem {A : Type} (xs : list A) (i : nat) : result A :=
  match nth_error xs i with
  | Some x => Ok x
  | None => Raise (IndexError "list index out of range")
  end.

(** [needle in s]. *)
Fixpoint contains (needle s : string) : bool :=
  if prefix needle s then true
  else match s with
       | EmptyString => false
       | String _ s' => contains needle s'
       end.

End Py.

(** ** The [re] module: a backtracking matcher with groups *)

Module Re.

Inductive regex : Type :=
| Lit (c : ascii)                 (* one literal character *)
| Digit                           (* \d *)
| OneOf (cs : list ascii)         (* [...] *)
| Cat (r1 r2 : regex)             (* r1 r2 *)
| Star (r : regex)                (* r*, greedy *)
| Plus (r : regex)                (* r+, greedy *)
| Opt (r : regex)                 (* r?, greedy *)
| Group (n : nat) (r : regex).    (* the n-th pair of parentheses *)

(** The groups closed so far, latest first. *)
Definition captures : Type := list (nat * string).

Fixpoint lookup (n : nat) (c : captures) : option string :=
  match c with
  | [] => None
  | (m, s) :: c' => if Nat.eqb n m then Some s else lookup n c'
  end.

(** What was read between [s] and its suffix [rest]. *)
Definition consumed (s rest : string) : string :=
  substring 0 (String.length s - String.length rest) s.

(** A match in progress hands the rest of the text and the groups to
    its continuation; [None] makes the matcher try its next choice. *)
Definition outcome : Type := option (string * captures).
Definition cont : Type := string -> captures -> outcome.
Definition matcher : Type := string -> captures -> cont -> outcome.

Definition or_else (a : outcome) (b : unit -> outcome) : outcome :=
  match a with
  | Some x => Some x
  | None => b tt
  end.

(** Greedy repetition of [m]: one more round first, stop otherwise.  A
    round that reads nothing is refused, as the engine does. *)
Fixpoint star (m : matcher) (fuel : nat) (s : string) (c : captures)
    (k : cont) : outcome :=
  match fuel with
  | O => k s c
  | S fuel' =>
      or_else
        (m s c (fun s' c' =>
                  if (String.length s' <? String.length s)%nat
                  then star m fuel' s' c' k
                  else None))
        (fun _ => k s c)
  end.

Fixpoint run (r : regex) (s : string) (c : captures) (k : cont)
    {struct r} : outcome :=
  match r with
  | Lit a =>
      match s with
      | String b s' => if Ascii.eqb a b then k s' c else None
      | EmptyString => None
      end
  | Digit =>
      match s with
      | String b s' => if Py.is_digit b then k s' c else None
      | EmptyString => None
      end
  | OneOf cs =>
      match s with
      | String b s' => if existsb (Ascii.eqb b) cs then k s' c else None
      | EmptyString => None
      end
  | Cat r1 r2 => run r1 s c (fun s' c' => run r2 s' c' k)
  | Star r1 => star (run r1) (String.length s) s c k
  | Plus r1 =>
      run r1 s c (fun s' c' => star (run r1) (String.length s') s' c' k)
  | Opt r1 => or_else (run r1 s c k) (fun _ => k s c)
  | Group n r1 =>
      run r1 s c (fun s' c' => k s' ((n, consumed s s') :: c'))
  end.

(** [pattern.match] at the start of [s]: the rest and the groups. *)
Definition match_here (r : regex) (s : string) : outcome :=
  run r s [] (fun s' c' => Some (s', c')).

(** The tuple [findall] reports for one match: a group that took no
    part in the match reads as the empty string. *)
Definition groups (ngroups : nat) (c : captures) : list string :=
  map (fun n => match lookup n c with Some s => s | None => "" end)
      (seq 1 ngroups).

(** [re.findall]: scan left to right; a match is recorded and the scan
    resumes where it ended ([skip] counts the characters of the match
    still to step over); without a match the scan moves on by one. *)
Fixpoint findall_from (r : regex) (ngroups : nat) (skip : nat)
    (s : string) {struct s} : list (list string) :=
  match skip with
  | S skip' =>
      match s with
      | String _ s' => findall_from r ngroups skip' s'
      | EmptyString => []
      end
  | O =>
      match match_here r s with
      | Some (rest, c) =>
          groups ngroups c ::
            match s with
            | String _ s' =>
                findall_from r ngroups
                  (String.length s - String.length rest - 1) s'
            | EmptyString => []
            end
      | None =>
          match s with
          | String _ s' => findall_from r ngroups 0 s'
          | EmptyString => []
          end
      end
  end.

Definition findall (r : regex) (ngroups : nat) (s : string)
    : list (list string) :=
  findall_from r ngroups 0 s.

End Re.

(** ** The [random] module *)

Module Random.

(** The generator: a source of entropy and how far it has been read.
    Every sequence of draws is the behaviour of some source. *)
Record rng : Type := { entropy : nat -> Z; cursor : nat }.

Definition advance (g : rng) : rng :=
  {| entropy := entropy g; cursor := S (cursor g) |}.

(** A computation that reads the generator and may raise. *)
Definition M (A : Type) : Type := rng -> result A * rng.

Definition ret {A : Type} (a : A) : M A := fun g => (Ok a, g).

Definition raise {A : Type} (e : exn) : M A := fun g => (Raise e, g).

Definition bindM {A B : Type} (m : M A) (f : A -> M B) : M B :=
  fun g =>
    match m g with
    | (Ok a, g') => f a g'
    | (Raise e, g') => (Raise e, g')
    end.

Definition lift {A : Type} (r : result A) : M A := fun g => (r, g).

(** [random.randint(a, b)]: uniform in the inclusive range, and a
    [ValueError] for an empty range (the wording of the message depends
    on the interpreter's version). *)
Definition randint (a b : Z) : M Z :=
  fun g =>
    if b <? a
    then (Raise (ValueError "empty range for randrange()"), g)
    else (Ok (a + entropy g (cursor g) mod (b - a + 1)), advance g).

End Random.

Notation "x <~ m ;; k" := (Random.bindM m (fun x => k))
(at level 61, m at next level, right associativity).
Notation "' p <~ m ;; k" :=
(Random.bindM m (fun x => match x with p => k end))
(at level 61, p pattern, m at next level, right associativity).

(** ** dice_utils.py *)

Module DiceUtils.
Import Re Random.

(** A component of an expression: (count, sides, modifier). *)
Definition component : Type := (Z * Z * Z)%type.

(** The pattern of line 19, group by group:
    group 1 is [\d*], then the letter d, group 2 is [\d+], and the
    optional group 3 is [[+-]\d+]. *)
Definition pattern : regex :=
  Cat (Group 1 (Star Digit))
    (Cat (Lit "d")
       (Cat (Group 2 (Plus Digit))
          (Opt (Group 3 (Cat (OneOf ["+"; "-"]%char) (Plus Digit)))))).

(** [expression.replace(" ", "").lower()] *)
Definition clean (expression : string) : string :=
  Py.lower (Py.replace " " "" expression).

(** Truth value of a string: non-empty. *)
Definition truthy (s : string) : bool :=
  match s with
  | EmptyString => false
  | String _ _ => true
  end.

(** [count_str, sides_str, modifier_str = match] *)
Definition unpack3 (m : list string) : result (string * string * string) :=
  match m with
  | [a; b; c] => Ok (a, b, c)
  | _ => Raise (ValueError "wrong number of values to unpack (expected 3)")
  end.

(** Lines 28-32 of the loop over the matches: the three groups as
    integers, before any check. *)
Definition convert_match (m : list string) : result component :=
  '(count_str, sides_str, modifier_str) <- unpack3 m ;;
  count <- (if truthy count_str then Py.int count_str else Ok 1) ;;
  sides <- Py.int sides_str ;;
  modifier <- (if truthy modifier_str then Py.int modifier_str else Ok 0) ;;
  Ok (count, sides, modifier).

(** Lines 34-37: the count is checked before the sides. *)
Definition check_bounds (t : component) : result component :=
  let '(count, sides, modifier) := t in
  if (count <=? 0) || (count >? 100)
  then Raise (ValueError ("Invalid dice count: " ++ Py.str count))
  else if (sides <=? 0) || (sides >? 1000)
  then Raise (ValueError ("Invalid dice sides: " ++ Py.str sides))
  else Ok (count, sides, modifier).

(** The loop of lines 27-39, from the [components] appended so far. *)
Fixpoint parse_loop (matches : list (list string))
    (components : list component) : result (list component) :=
  match matches with
  | [] => Ok components
  | m :: matches' =>
      t <- convert_match m ;;
      t <- check_bounds t ;;
      parse_loop matches' (components ++ [t])
  end.

Definition parse_dice_expression (expression : string)
    : result (list component) :=
  let expression := clean expression in
  let matches := findall pattern 3 expression in
  match matches with
  | [] => Raise (ValueError ("Invalid dice expression: " ++ expression))
  | _ => parse_loop matches []
  end.

(** [[random.randint(1, sides) for _ in range(count)]], [n] being the
    length of [range(count)]. *)
Fixpoint roll_list (sides : Z) (n : nat) : M (list Z) :=
  match n with
  | O => ret []
  | S n' =>
      r <~ randint 1 sides ;;
      rs <~ roll_list sides n' ;;
      ret (r :: rs)
  end.

(** Lines 62-65. *)
Definition roll_detail (rolls : list Z) : result string :=
  if Nat.eqb (List.length rolls) 1
  then r0 <- Py.getitem rolls 0 ;; Ok ("[" ++ Py.str r0 ++ "]")
  else Ok ("[" ++ Py.join "+" (map Py.str rolls) ++ "]").

(** Lines 61-71: the text appended to [breakdown_parts]. *)
Definition breakdown_part (count sides modifier : Z) (rolls : list Z)
    (dice_total : Z) : result string :=
  let dice_str := Py.str count ++ "d" ++ Py.str sides in
  detail <- roll_detail rolls ;;
  if negb (modifier =? 0)
  then
    let modifier_str := Py.format_plus_d modifier in
    Ok (dice_str ++ ": " ++ detail ++ modifier_str ++ " = "
          ++ Py.str dice_total)
  else Ok (dice_str ++ ": " ++ detail ++ " = " ++ Py.str dice_total).

(** The loop over the components (lines 55-71), from the running
    [total] and [breakdown_parts]. *)
Fixpoint roll_loop (components : list component) (total : Z)
    (breakdown_parts : list string) : M (Z * list string) :=
  match components with
  | [] => ret (total, breakdown_parts)
  | (count, sides, modifier) :: components' =>
      rolls <~ roll_list sides (Z.to_nat count) ;;
      let dice_total := Py.sum rolls + modifier in
      part <~ lift (breakdown_part count sides modifier rolls dice_total) ;;
      roll_loop components' (total + dice_total) (breakdown_parts ++ [part])
  end.

(** Lines 52-73: the evaluation of parsed components into the total and
    the breakdown. *)
Definition evaluate (components : list component) : M (Z * string) :=
  '(total, breakdown_parts) <~ roll_loop components 0 [] ;;
  ret (total, Py.join " | " breakdown_parts).

(** [roll_dice]: the [expression] returned is the parameter, which the
    body never rebinds; [except Exception] catches every class. *)
Definition roll_dice (expression : string) : M (Z * string * string) :=
  fun g =>
    let body :=
      components <~ lift (parse_dice_expression expression) ;;
      '(total, breakdown) <~ evaluate components ;;
      ret (total, breakdown, expression) in
    match body g with
    | (Ok v, g') => (Ok v, g')
    | (Raise e, g') =>
        (Raise (ValueError ("Error rolling dice: " ++ str_exn e)), g')
    end.

(** [validate_dice_expression]: [except ValueError] lets any other
    class through. *)
Definition validate_dice_expression (expression : string) : result bool :=
  match parse_dice_expression expression with
  | Ok _ => Ok true
  | Raise (ValueError _) => Ok false
  | Raise e => Raise e
  end.

End DiceUtils.

(** ** main.py: [roll_dice_endpoint] *)

Module Main.
Import Random DiceUtils.

(** What the client receives.  The time stamp of the response and the
    chat message written to the database are left out: they do not
    influence the three fields kept here. *)
Inductive response : Type :=
| HTTPException (status_code : Z) (detail : string)
| DiceRollResponse (expression : string) (result : Z) (breakdown : string)
| Unhandled (e : exn).

(** [table_found] is the outcome of the table query. *)
Definition roll_dice_endpoint (table_found : bool) (expression : string)
    (g : rng) : response * rng :=
  if negb table_found
  then (HTTPException 404 "Table not found", g)
  else
    match validate_dice_expression expression with
    | Raise e => (Unhandled e, g)
    | Ok false => (HTTPException 400 "Invalid dice expression", g)
    | Ok true =>
        match roll_dice expression g with
        | (Ok (result, breakdown, expression'), g') =>
            (DiceRollResponse expression' result breakdown, g')
        | (Raise (ValueError msg), g') => (HTTPException 400 msg, g')
        | (Raise e, g') => (Unhandled e, g')
        end
    end.

End Main.

(** ** The vocabulary of the specification *)

Module Spec.
Import DiceUtils.

(** The three failures of the parser, as the messages that tell them
    apart. *)
Definition InvalidExpression (text : string) : exn :=
  ValueError ("Invalid dice expression: " ++ text).
Definition InvalidDiceCount (count : Z) : exn :=
  ValueError ("Invalid dice count: " ++ Py.str count).
Definition InvalidDiceSides (sides : Z) : exn :=
  ValueError ("Invalid dice sides: " ++ Py.str sides).

(** The invariant of a dice term. *)
Definition count_ok (count : Z) : Prop := 1 <= count <= 100.
Definition sides_ok (sides : Z) : Prop := 1 <= sides <= 1000.
Definition in_bounds (t : component) : Prop :=
  let '(count, sides, _) := t in count_ok count /\ sides_ok sides.

Definition in_boundsb (t : component) : bool :=
  let '(count, sides, _) := t in
  (1 <=? count) && (count <=? 100) && (1 <=? sides) && (sides <=? 1000).

(** The error of a term that violates a bound. *)
Definition bound_error (t : component) : exn :=
  let '(count, sides, _) := t in
  if (1 <=? count) && (count <=? 100)
  then InvalidDiceSides sides
  else InvalidDiceCount count.

(** The terms an expression holds, before the bounds are looked at. *)
Fixpoint convert_all (matches : list (list string))
    : result (list component) :=
  match matches with
  | [] => Ok []
  | m :: matches' =>
      t <- convert_match m ;;
      ts <- convert_all matches' ;;
      Ok (t :: ts)
  end.

Definition extracted (expression : string) : result (list component) :=
  convert_all (Re.findall pattern 3 (clean expression)).

(** The text [f"{count}d{sides}{modifier:+d}"] and its unsigned form. *)
Definition render (count sides modifier : Z) : string :=
  Py.str count ++ "d" ++ Py.str sides ++ Py.format_plus_d modifier.
Definition render_unsigned (count sides : Z) : string :=
  Py.str count ++ "d" ++ Py.str sides.

(** The modifier with an explicit sign when it is not zero, nothing
    otherwise. *)
Definition signed_modifier (modifier : Z) : string :=
  if modifier =? 0 then ""
  else if 0 <? modifier then "+" ++ Py.str modifier
  else Py.str modifier.

(** The display fragment of one term, from its draws. *)
Definition fragment (t : component) (draws : list Z) : string :=
  let '(count, sides, modifier) := t in
  Py.str count ++ "d" ++ Py.str sides ++ ": ["
    ++ Py.join "+" (map Py.str draws) ++ "]"
    ++ signed_modifier modifier ++ " = "
    ++ Py.str (Py.sum draws + modifier).

Definition subtotal (t : component) (draws : list Z) : Z :=
  let '(_, _, modifier) := t in Py.sum draws + modifier.

(** The draws of one term: one per die, each in [1, sides]. *)
Definition draws_ok (t : component) (draws : list Z) : Prop :=
  let '(count, sides, _) := t in
  Z.of_nat (List.length draws) = count /\
  Forall (fun r => 1 <= r <= sides) draws.

Fixpoint fragments (ts : list component) (dss : list (list Z))
    : list string :=
  match ts, dss with
  | t :: ts', ds :: dss' => fragment t ds :: fragments ts' dss'
  | _, _ => []
  end.

Fixpoint subtotals (ts : list component) (dss : list (list Z)) : Z :=
  match ts, dss with
  | t :: ts', ds :: dss' => subtotal t ds + subtotals ts' dss'
  | _, _ => 0
  end.

(** The messages of the failures of [convert_match] and [check_bounds]. *)
Inductive loop_error : exn -> Prop :=
| le_unpack :
    loop_error (ValueError "wrong number of values to unpack (expected 3)")
| le_int s :
    loop_error (ValueError
      ("invalid literal for int() with base 10: " ++ Py.repr s))
| le_count n : loop_error (InvalidDiceCount n)
| le_sides n : loop_error (InvalidDiceSides n).

End Spec.

(** ** The matcher on the pattern of the source, in direct form *)

Module Direct.
Import DiceUtils.

Fixpoint take_digits (s : string) : string :=
  match s with
  | String c s' =>
      if Py.is_digit c then String c (take_digits s') else EmptyString
  | EmptyString => EmptyString
  end.

Fixpoint drop_digits (s : string) : string :=
  match s with
  | String c s' => if Py.is_digit c then drop_digits s' else s
  | EmptyString => EmptyString
  end.

Fixpoint all_digits (s : string) : bool :=
  match s with
  | String c s' => Py.is_digit c && all_digits s'
  | EmptyString => true
  end.

Definition is_sign (c : ascii) : bool :=
  Ascii.eqb c "+" || Ascii.eqb c "-".

(** Greedy digits followed by [k], with the matcher's order of
    choices: the longest run first. *)
Fixpoint greedy_digits (s : string) (c : Re.captures) (k : Re.cont)
    : Re.outcome :=
  match s with
  | String b s' =>
      if Py.is_digit b
      then Re.or_else (greedy_digits s' c k) (fun _ => k s c)
      else k s c
  | EmptyString => k s c
  end.

(** One match of the pattern at the head of [s]: the three groups and
    the text after the match. *)
Definition match_at (s : string) : option (list string * string) :=
  match drop_digits s with
  | String "d" s2 =>
      if truthy (take_digits s2)
      then
        let s3 := drop_digits s2 in
        let plain := Some ([take_digits s; take_digits s2; ""], s3) in
        match s3 with
        | String sg s4 =>
            if is_sign sg && truthy (take_digits s4)
            then Some ([take_digits s; take_digits s2;
                        String sg (take_digits s4)], drop_digits s4)
            else plain
        | EmptyString => plain
        end
      else None
  | _ => None
  end.


End Direct.

(** ** A generator for the examples *)

Module Sample.
Import Random.

(** Its draws on a six-sided die are 4, 5, 6, 1, 2, 3, 4, ... *)
Definition sample_rng : rng :=
  {| entropy := fun n => Z.of_nat n + 3; cursor := 0 |}.

Definition tab : ascii := ascii_of_nat 9.

(** A generator whose first draws on a die of enough sides are the
    given ones. *)
Definition source_of (draws : list Z) : rng :=
  {| entropy := fun n => nth n draws 1 - 1; cursor := 0 |}.

End Sample.


(** ** Measures of a text and of parsed terms *)

Module Terms.
Import Random DiceUtils.

(** A letter d directly followed by a digit: where a term can start. *)
Fixpoint has_term_start (s : string) : bool :=
  match s with
  | String c s' =>
      (Ascii.eqb c "d"
       && match s' with
          | String b _ => Py.is_digit b
          | EmptyString => false
          end)
      || has_term_start s'
  | EmptyString => false
  end.

(** A character that is neither a digit nor the letter d in either case,
    and a text made of such characters. *)
Definition inert_char (c : ascii) : bool :=
  negb (Py.is_digit c) && negb (Ascii.eqb (Py.lower_char c) "d").

Fixpoint inert (s : string) : bool :=
  match s with
  | String c s' => inert_char c && inert s'
  | EmptyString => true
  end.

(** The number of dice of a list of terms, and the least and the
    greatest total its dice can give. *)
Fixpoint dice_count (ts : list component) : nat :=
  match ts with
  | [] => O
  | (count, _, _) :: ts' => (Z.to_nat count + dice_count ts')%nat
  end.



(** The generator after [n] more draws. *)
Definition forward (g : rng) (n : nat) : rng :=
  {| entropy := entropy g; cursor := cursor g + n |}.

(** One term as the text "{count}d{sides}{modifier:+d}", and the three
    groups the pattern reads in it. *)
Definition render_term (t : component) : string :=
  let '(count, sides, modifier) := t in
  Py.str count ++ "d" ++ Py.str sides ++ Py.format_plus_d modifier.

Definition groups_of (t : component) : list string :=
  let '(count, sides, modifier) := t in
  [Py.str count; Py.str sides; Py.format_plus_d modifier].

End Terms.

(** ** The [json] module: [json.dumps] *)

Module Json.

(** The values the API writes: strings and integers, and a dict of
    them. *)
Inductive scalar : Type :=
| JStr (s : string)
| JInt (n : Z).

Definition dq : ascii := ascii_of_nat 34.
Definition backslash : ascii := ascii_of_nat 92.

Definition hex_digit (n : N) : ascii :=
  nth (N.to_nat n)
    ["0"; "1"; "2"; "3"; "4"; "5"; "6"; "7"; "8"; "9";
     "a"; "b"; "c"; "d"; "e"; "f"]%char "0"%char.

(** One character of a string with [ensure_ascii]: the quote and the
    backslash get a backslash, five control characters have a letter,
    the other characters outside ' '..'~' are written as \u00hh. *)
Definition escape_char (c : ascii) : string :=
  let n := Py.code c in
  if (n =? 34)%N then String backslash (String dq "")
  else if (n =? 92)%N then String backslash (String backslash "")
  else if (n =? 10)%N then String backslash "n"
  else if (n =? 13)%N then String backslash "r"
  else if (n =? 9)%N then String backslash "t"
  else if (n =? 8)%N then String backslash "b"
  else if (n =? 12)%N then String backslash "f"
  else if ((32 <=? n) && (n <=? 126))%N then String c ""
  else String backslash
         ("u00" ++ String (hex_digit (n / 16))
                     (String (hex_digit (n mod 16)) "")).

Fixpoint escape (s : string) : string :=
  match s with
  | EmptyString => ""
  | String c s' => escape_char c ++ escape s'
  end.

Definition quote (s : string) : string :=
  String dq (escape s ++ String dq "").

Definition dumps_scalar (v : scalar) : string :=
  match v with
  | JStr s => quote s
  | JInt n => Py.str n
  end.

(** [json.dumps(d)] of a dict with the default separators; the members
    are written in the order of the dict. *)
Definition dumps (members : list (string * scalar)) : string :=
  "{" ++ Py.join ", "
           (map (fun '(k, v) => quote k ++ ": " ++ dumps_scalar v) members)
      ++ "}".

End Json.

(** ** models.py and main.py over an explicit database *)

Module Api.
Import Random DiceUtils.

(** A naive UTC [datetime], as a number of microseconds. *)
Definition datetime : Type := Z.

(** A Python [float], by the 64 bits of its double.  The API stores and
    returns coordinates and computes nothing with them. *)
Inductive float : Type := float_of_bits (bits : Z).

(** The rows of the three tables (models.py, lines 14-64). *)
Record Table : Type := mkTable {
  table_id : Z;
  table_name : string;
  table_created_at : datetime;
  table_updated_at : datetime }.

Record Token : Type := mkToken {
  token_id : string;
  token_table_id : Z;
  token_name : string;
  token_x : float;
  token_y : float;
  token_color : option string;
  token_locked : bool;
  token_created_at : datetime;
  token_updated_at : datetime }.

Record ChatMessage : Type := mkChatMessage {
  message_id : string;
  message_table_id : Z;
  message_type : string;
  message_payload : string;
  message_timestamp : datetime;
  message_user : option string }.

(** The request and response schemas (models.py, lines 84-126). *)
Record TokenCreate : Type := mkTokenCreate {
  create_name : string;
  create_x : float;
  create_y : float;
  create_color : option string }.

Record TokenUpdate : Type := mkTokenUpdate {
  update_name : option string;
  update_x : option float;
  update_y : option float;
  update_color : option string;
  update_locked : option bool }.

Record DiceRollResponse : Type := mkDiceRollResponse {
  response_expression : string;
  response_result : Z;
  response_breakdown : string;
  response_timestamp : datetime }.

(** The committed content of the database, each table in the order of
    insertion. *)
Record Db : Type := mkDb {
  tables : list Table;
  tokens : list Token;
  chat_messages : list ChatMessage }.

(** An exception no handler catches: one of Python, or the
    [IntegrityError] of a commit that repeats a primary key. *)
Inductive failure : Type :=
| PythonError (e : exn)
| IntegrityError.

(** What a handler gives back: its return value, the [HTTPException] it
    raises, or another exception, which the server answers with 500
    after [get_db] (db.py, lines 34-46) has rolled the session back.
    The request bodies have been validated against their schemas
    before the handler runs. *)
Inductive reply (A : Type) : Type :=
| Return (body : A)
| HTTPException (status_code : Z) (detail : string)
| Unhandled (error : failure).

Arguments Return {A} body.
Arguments HTTPException {A} status_code detail.
Arguments Unhandled {A} error.

(** [db.query(Table).filter(Table.id == table_id).first()] *)
Definition query_table (table_id' : Z) (db : Db) : option Table :=
  find (fun t => table_id t =? table_id') (tables db).

(** [db.query(Token).filter(Token.id == token_id,
    Token.table_id == table_id).first()] *)
Definition query_token (token_id' : string) (table_id' : Z) (db : Db)
    : option Token :=
  find (fun t => String.eqb (token_id t) token_id'
                 && (token_table_id t =? table_id'))
       (tokens db).

(** [create_table]: [new_id] is the id the database assigns to the row;
    the two times are the column defaults. *)
Definition create_table (name : string) (new_id : Z)
    (created updated : datetime) (db : Db) : reply Table * Db :=
  let db_table := mkTable new_id name created updated in
  (Return db_table,
   mkDb (tables db ++ [db_table]) (tokens db) (chat_messages db)).

Definition get_table (table_id' : Z) (db : Db) : reply Table :=
  match query_table table_id' db with
  | None => HTTPException 404 "Table not found"
  | Some table => Return table
  end.

(** [delete_table]: deleting the row deletes its tokens and its chat
    messages with it (the two relationships cascade, models.py lines
    26-27). *)
Definition delete_table (table_id' : Z) (db : Db) : reply string * Db :=
  match query_table table_id' db with
  | None => (HTTPException 404 "Table not found", db)
  | Some table =>
      (Return "Table deleted successfully",
       mkDb (filter (fun t => negb (table_id t =? table_id table))
               (tables db))
            (filter (fun k => negb (token_table_id k =? table_id table))
               (tokens db))
            (filter (fun m => negb (message_table_id m =? table_id table))
               (chat_messages db)))
  end.

Definition list_tables (db : Db) : reply (list Table) :=
  Return (tables db).

(** [create_token]: [new_id] is [str(uuid.uuid4())]; [locked] takes its
    default; a primary key already in use makes the commit fail. *)
Definition create_token (table_id' : Z) (token_data : TokenCreate)
    (new_id : string) (created updated : datetime) (db : Db)
    : reply Token * Db :=
  match query_table table_id' db with
  | None => (HTTPException 404 "Table not found", db)
  | Some _ =>
      let db_token :=
        mkToken new_id table_id' (create_name token_data)
          (create_x token_data) (create_y token_data)
          (create_color token_data) false created updated in
      if existsb (fun k => String.eqb (token_id k) new_id) (tokens db)
      then (Unhandled IntegrityError, db)
      else (Return db_token,
            mkDb (tables db) (tokens db ++ [db_token]) (chat_messages db))
  end.

Definition get_table_tokens (table_id' : Z) (db : Db)
    : reply (list Token) :=
  match query_table table_id' db with
  | None => HTTPException 404 "Table not found"
  | Some _ =>
      Return (filter (fun k => token_table_id k =? table_id') (tokens db))
  end.

(** Lines 172-183: only the fields that are given are written. *)
Definition apply_update (token : Token) (token_update : TokenUpdate)
    (now : datetime) : Token :=
  let pick {A : Type} (new : option A) (old : A) : A :=
    match new with Some v => v | None => old end in
  mkToken (token_id token) (token_table_id token)
    (pick (update_name token_update) (token_name token))
    (pick (update_x token_update) (token_x token))
    (pick (update_y token_update) (token_y token))
    (match update_color token_update with
     | Some v => Some v
     | None => token_color token
     end)
    (pick (update_locked token_update) (token_locked token))
    (token_created_at token) now.

(** The row of a primary key rewritten at the commit. *)
Definition store_token (token : Token) (db : Db) : Db :=
  mkDb (tables db)
       (map (fun k => if String.eqb (token_id k) (token_id token)
                      then token else k) (tokens db))
       (chat_messages db).

Definition update_token (table_id' : Z) (token_id' : string)
    (token_update : TokenUpdate) (now : datetime) (db : Db)
    : reply Token * Db :=
  match query_token token_id' table_id' db with
  | None => (HTTPException 404 "Token not found", db)
  | Some token =>
      let token := apply_update token token_update now in
      (Return token, store_token token db)
  end.

Definition delete_token (table_id' : Z) (token_id' : string) (db : Db)
    : reply string * Db :=
  match query_token token_id' table_id' db with
  | None => (HTTPException 404 "Token not found", db)
  | Some token =>
      (Return "Token deleted successfully",
       mkDb (tables db)
            (filter (fun k => negb (String.eqb (token_id k)
                                      (token_id token)))
               (tokens db))
            (chat_messages db))
  end.

(** Lines 217-221. *)
Definition roll_payload (expression : string) (result : Z)
    (breakdown : string) : list (string * Json.scalar) :=
  [("expression", Json.JStr expression);
   ("result", Json.JInt result);
   ("breakdown", Json.JStr breakdown)].

(** [roll_dice_endpoint] with the chat message it saves: [new_id] is
    [str(uuid.uuid4())] and [now] is [datetime.utcnow()]. *)
Definition roll_dice_endpoint (table_id' : Z) (expression : string)
    (new_id : string) (now : datetime) (db : Db) (g : rng)
    : reply DiceRollResponse * Db * rng :=
  match query_table table_id' db with
  | None => (HTTPException 404 "Table not found", db, g)
  | Some _ =>
      match validate_dice_expression expression with
      | Raise e => (Unhandled (PythonError e), db, g)
      | Ok false => (HTTPException 400 "Invalid dice expression", db, g)
      | Ok true =>
          match roll_dice expression g with
          | (Ok (result, breakdown, expression'), g') =>
              let chat_message :=
                mkChatMessage new_id table_id' "roll"
                  (Json.dumps (roll_payload expression' result breakdown))
                  now None in
              if existsb (fun m => String.eqb (message_id m) new_id)
                   (chat_messages db)
              then (Unhandled IntegrityError, db, g')
              else
                (Return (mkDiceRollResponse expression' result breakdown
                           now),
                 mkDb (tables db) (tokens db)
                      (chat_messages db ++ [chat_message]),
                 g')
          | (Raise (ValueError msg), g') => (HTTPException 400 msg, db, g')
          | (Raise e, g') => (Unhandled (PythonError e), db, g')
          end
      end
  end.

(** The database is consistent when primary keys are unique and every
    token and chat message belongs to a stored table. *)
Definition consistent (db : Db) : Prop :=
  NoDup (map table_id (tables db)) /\
  NoDup (map token_id (tokens db)) /\
  NoDup (map message_id (chat_messages db)) /\
  Forall (fun k => In (token_table_id k) (map table_id (tables db)))
    (tokens db) /\
  Forall (fun m => In (message_table_id m) (map table_id (tables db)))
    (chat_messages db).

(** The requests that write, with what the environment supplies to
    each, and the database after the request. *)
Inductive request : Type :=
| CreateTable (name : string) (new_id : Z) (created updated : datetime)
| DeleteTable (table_id' : Z)
| CreateToken (table_id' : Z) (token_data : TokenCreate) (new_id : string)
    (created updated : datetime)
| UpdateToken (table_id' : Z) (token_id' : string)
    (token_update : TokenUpdate) (now : datetime)
| DeleteToken (table_id' : Z) (token_id' : string)
| RollDice (table_id' : Z) (expression : string) (new_id : string)
    (now : datetime) (g : rng).

Definition handle (r : request) (db : Db) : Db :=
  match r with
  | CreateTable name new_id created updated =>
      snd (create_table name new_id created updated db)
  | DeleteTable table_id' => snd (delete_table table_id' db)
  | CreateToken table_id' token_data new_id created updated =>
      snd (create_token table_id' token_data new_id created updated db)
  | UpdateToken table_id' token_id' token_update now =>
      snd (update_token table_id' token_id' token_update now db)
  | DeleteToken table_id' token_id' =>
      snd (delete_token table_id' token_id' db)
  | RollDice table_id' expression new_id now g =>
      snd (fst (roll_dice_endpoint table_id' expression new_id now db g))
  end.

(** The database assigns to a new table an id that no table has. *)
Definition fresh (r : request) (db : Db) : Prop :=
  match r with
  | CreateTable _ new_id _ _ => ~ In new_id (map table_id (tables db))
  | _ => True
  end.

(** A database for the examples: two tables, a token on each. *)
Definition sample_db : Db :=
  mkDb [mkTable 1 "Mesa" 10 10; mkTable 2 "Outra" 20 20]
       [mkToken "t-a" 1 "Goblin" (float_of_bits 0) (float_of_bits 0)
          (Some "red") false 30 30;
        mkToken "t-b" 2 "Orc" (float_of_bits 0) (float_of_bits 0)
          None true 40 40]
       [].

End Api.
(* ================================================================== *)
(** * Proofs *)
(* ================================================================== *)

Import Re Random DiceUtils Main Spec Direct.

(** ** Strings *)

Lemma append_assoc (a b c : string) : (a ++ b) ++ c = a ++ (b ++ c).
Proof. induction a as [|x a IH]; simpl; [reflexivity | now rewrite IH]. Qed.

Lemma append_nil_r (a : string) : a ++ "" = a.
Proof. induction a as [|x a IH]; simpl; [reflexivity | now rewrite IH]. Qed.

Lemma length_append (a b : string) :
  String.length (a ++ b) = (String.length a + String.length b)%nat.
Proof. induction a as [|x a IH]; simpl; [reflexivity | now rewrite IH]. Qed.

Lemma substring_prefix (pre rest : string) :
  substring 0 (String.length pre) (pre ++ rest) = pre.
Proof.
  induction pre as [|x pre IH]; simpl.
  - now destruct rest.
  - now rewrite IH.
Qed.

Lemma consumed_append (pre rest : string) : consumed (pre ++ rest) rest = pre.
Proof.
  unfold consumed. rewrite length_append.
  replace (String.length pre + String.length rest - String.length rest)%nat
    with (String.length pre) by lia.
  apply substring_prefix.
Qed.

(** ** Runs of digits *)

Lemma take_drop_digits (s : string) : take_digits s ++ drop_digits s = s.
Proof.
  induction s as [|c s IH]; simpl; [reflexivity|].
  destruct (Py.is_digit c); simpl; [now rewrite IH | reflexivity].
Qed.

Lemma consumed_digits (s : string) :
  consumed s (drop_digits s) = take_digits s.
Proof.
  rewrite <- (take_drop_digits s) at 1. apply consumed_append.
Qed.

Lemma consumed_prefix_digits (pre s : string) :
  consumed (pre ++ s) (drop_digits s) = pre ++ take_digits s.
Proof.
  rewrite <- (take_drop_digits s) at 1. rewrite <- append_assoc.
  apply consumed_append.
Qed.


(** A run of digits in front of a text that does not go on with a digit
    is read whole. *)
Lemma take_digits_append (ds rest : string) :
  all_digits ds = true -> take_digits rest = "" ->
  take_digits (ds ++ rest) = ds /\ drop_digits (ds ++ rest) = rest.
Proof.
  intros Hd Hr. induction ds as [|c ds IH]; simpl in *.
  - split; [assumption|].
    destruct rest as [|x rest]; simpl in *; [reflexivity|].
    destruct (Py.is_digit x); [discriminate | reflexivity].
  - apply andb_true_iff in Hd as [Hc Hd]. rewrite Hc.
    destruct (IH Hd) as [-> ->]. split; reflexivity.
Qed.

(** ** The matcher on the pattern *)

Lemma star_digits (fuel : nat) (s : string) (c : captures) (k : cont) :
  (String.length s <= fuel)%nat ->
  star (run Digit) fuel s c k = greedy_digits s c k.
Proof.
  revert s c. induction fuel as [|fuel IH]; intros s c Hlen.
  - destruct s; simpl in *; [reflexivity | lia].
  - destruct s as [|b s]; simpl; [reflexivity|].
    destruct (Py.is_digit b); [|reflexivity].
    replace (String.length s <? S (String.length s))%nat with true
      by (symmetry; apply Nat.ltb_lt; lia).
    rewrite IH by (simpl in Hlen; lia). reflexivity.
Qed.

(** When the continuation refuses a text that goes on with a digit, only
    the longest run is a choice. *)
Lemma greedy_digits_commit (s : string) (c : captures) (k : cont) :
  (forall b s' c', Py.is_digit b = true -> k (String b s') c' = None) ->
  greedy_digits s c k = k (drop_digits s) c.
Proof.
  intros Hk. induction s as [|b s IH]; simpl; [reflexivity|].
  destruct (Py.is_digit b) eqn:E; [|reflexivity].
  rewrite IH. destruct (k (drop_digits s) c); simpl; [reflexivity|].
  now apply Hk.
Qed.

(** The longest run is the first choice. *)
Lemma greedy_digits_first (s : string) (c : captures) (k : cont) :
  k (drop_digits s) c <> None ->
  greedy_digits s c k = k (drop_digits s) c.
Proof.
  intros Hk. induction s as [|b s IH]; simpl in *; [reflexivity|].
  destruct (Py.is_digit b); [|reflexivity].
  rewrite (IH Hk). now destruct (k (drop_digits s) c).
Qed.

Lemma is_digit_not_d (b : ascii) :
  Py.is_digit b = true -> Ascii.eqb "d" b = false.
Proof.
  intros H. destruct (Ascii.eqb_spec "d"%char b) as [<-|]; [|reflexivity].
  discriminate H.
Qed.

Lemma is_sign_existsb (b : ascii) :
  existsb (Ascii.eqb b) ["+"%char; "-"%char] = is_sign b.
Proof. unfold is_sign. simpl. now rewrite orb_false_r. Qed.

(** The optional third group at the end of the pattern. *)
Lemma run_modifier (s3 : string) (c : captures) :
  run (Opt (Group 3 (Cat (OneOf ["+"; "-"]%char) (Plus Digit)))) s3 c
      (fun s' c' => Some (s', c'))
  = match s3 with
    | String sg s4 =>
        if is_sign sg && truthy (take_digits s4)
        then Some (drop_digits s4, (3%nat, String sg (take_digits s4)) :: c)
        else Some (s3, c)
    | EmptyString => Some (s3, c)
    end.
Proof.
  cbn [run]. destruct s3 as [|sg s4]; [reflexivity|].
  rewrite is_sign_existsb. destruct (is_sign sg); [|reflexivity].
  destruct s4 as [|b s5]; [reflexivity|].
  cbn [take_digits drop_digits].
  destruct (Py.is_digit b) eqn:Hb; [|reflexivity].
  cbn [andb truthy].
  change (fun (s0 : string) (c0 : captures) (k : cont) =>
            match s0 with
            | "" => None
            | String b2 s'2 => if Py.is_digit b2 then k s'2 c0 else None
            end) with (run Digit).
  rewrite star_digits by lia.
  rewrite greedy_digits_first by discriminate.
  cbn [or_else].
  change (String sg (String b s5)) with (String sg (String b "") ++ s5).
  now rewrite consumed_prefix_digits.
Qed.

Lemma match_here_pattern (s : string) :
  option_map (fun '(rest, c) => (groups 3 c, rest)) (match_here pattern s)
  = match_at s.
Proof.
  unfold match_here, pattern, match_at.
  remember (Opt (Group 3 (Cat (OneOf ["+"; "-"]%char) (Plus Digit)))) as tail
    eqn:Htail.
  cbn [run].
  rewrite star_digits by lia.
  rewrite greedy_digits_commit.
  2:{ intros b s' c' Hb. now rewrite (is_digit_not_d b Hb). }
  rewrite consumed_digits.
  destruct (drop_digits s) as [|x s2]; [reflexivity|].
  destruct (Ascii.eqb_spec "d"%char x) as [<-|Hx].
  2:{ destruct x as [[|] [|] [|] [|] [|] [|] [|] [|]]; try reflexivity.
      now elim Hx. }
  destruct s2 as [|b s2']; [reflexivity|].
  cbn [take_digits drop_digits].
  destruct (Py.is_digit b) eqn:Hb; [|reflexivity].
  cbn [truthy].
  rewrite star_digits by lia.
  assert (Hc : consumed (String b s2') (drop_digits s2')
               = String b (take_digits s2')).
  { change (String b s2') with (String b "" ++ s2').
    now rewrite consumed_prefix_digits. }
  subst tail.
  rewrite greedy_digits_first; rewrite run_modifier, Hc.
  - destruct (drop_digits s2') as [|sg s4]; [reflexivity|].
    destruct (is_sign sg && truthy (take_digits s4)); reflexivity.
  - destruct (drop_digits s2') as [|sg s4]; [discriminate|].
    destruct (is_sign sg && truthy (take_digits s4)); discriminate.
Qed.

(** ** [findall] on the pattern *)

Lemma findall_from_skip (r : regex) (n : nat) (pre rest : string) :
  findall_from r n (String.length pre) (pre ++ rest)
  = findall_from r n 0 rest.
Proof.
  induction pre as [|x pre IH]; simpl.
  - now destruct rest.
  - apply IH.
Qed.

(** A match reads at least one character and leaves a suffix. *)
Lemma match_at_suffix (s : string) gs rest :
  match_at s = Some (gs, rest) ->
  exists x pre, s = String x pre ++ rest.
Proof.
  unfold match_at. intros H.
  pose proof (take_drop_digits s) as Hs.
  destruct (drop_digits s) as [|d s2]; [discriminate|].
  assert (Hd : exists x pre, s = String x pre ++ s2).
  { destruct (take_digits s) as [|y t] eqn:Et; simpl in Hs.
    - exists d, "". now rewrite <- Hs.
    - exists y, (t ++ String d ""). rewrite <- Hs. simpl.
      now rewrite append_assoc. }
  destruct Hd as (x & pre & ->).
  assert (Hnext : forall u v, s2 = u ++ v ->
            exists x' pre', String x pre ++ s2 = String x' pre' ++ v).
  { intros u v ->. exists x, (pre ++ u). simpl. now rewrite append_assoc. }
  destruct d as [[|] [|] [|] [|] [|] [|] [|] [|]]; try discriminate.
  destruct (truthy (take_digits s2)); [|discriminate].
  pose proof (take_drop_digits s2) as Hs2.
  destruct (drop_digits s2) as [|sg s4] eqn:E3.
  - injection H as _ <-. apply (Hnext (take_digits s2)). now rewrite Hs2.
  - destruct (is_sign sg && truthy (take_digits s4)).
    + injection H as _ <-.
      apply (Hnext (take_digits s2 ++ String sg (take_digits s4))).
      rewrite append_assoc. simpl. now rewrite take_drop_digits.
    + injection H as _ <-. apply (Hnext (take_digits s2)). now rewrite Hs2.
Qed.

Lemma findall_match (s : string) gs rest :
  match_at s = Some (gs, rest) ->
  findall pattern 3 s = gs :: findall pattern 3 rest.
Proof.
  intros H. destruct (match_at_suffix s gs rest H) as (x & pre & ->).
  rewrite <- match_here_pattern in H.
  unfold findall. cbn [append findall_from].
  change (String x (pre ++ rest)) with (String x pre ++ rest) in *.
  destruct (match_here pattern (String x pre ++ rest)) as [[rest' c]|];
    [|discriminate].
  simpl in H. injection H as <- ->. f_equal.
  cbn [append String.length]. rewrite length_append.
  replace (S (String.length pre + String.length rest)
           - String.length rest - 1)%nat
    with (String.length pre) by lia.
  apply findall_from_skip.
Qed.

Lemma findall_nomatch (x : ascii) (s : string) :
  match_at (String x s) = None ->
  findall pattern 3 (String x s) = findall pattern 3 s.
Proof.
  intros H. rewrite <- match_here_pattern in H.
  unfold findall. cbn [findall_from].
  destruct (match_here pattern (String x s)) as [[rest c]|];
    [discriminate | reflexivity].
Qed.

Lemma findall_empty : findall pattern 3 "" = [].
Proof. reflexivity. Qed.

(** Induction along the scan of [findall]. *)
Lemma findall_ind (P : string -> list (list string) -> Prop) :
  P "" [] ->
  (forall s gs rest,
      match_at s = Some (gs, rest) ->
      P rest (findall pattern 3 rest) ->
      P s (gs :: findall pattern 3 rest)) ->
  (forall x s,
      match_at (String x s) = None ->
      P s (findall pattern 3 s) ->
      P (String x s) (findall pattern 3 s)) ->
  forall s, P s (findall pattern 3 s).
Proof.
  intros Hnil Hmatch Hskip s.
  remember (String.length s) as n eqn:Hn.
  revert s Hn. induction n as [n IH] using lt_wf_ind. intros s Hn.
  destruct s as [|x s]; [exact Hnil|].
  destruct (match_at (String x s)) as [[gs rest]|] eqn:E.
  - rewrite (findall_match _ _ _ E). apply (Hmatch _ _ _ E).
    destruct (match_at_suffix _ _ _ E) as (y & pre & Hs).
    apply (IH (String.length rest)); [|reflexivity].
    rewrite Hn, Hs. simpl. rewrite length_append. lia.
  - rewrite (findall_nomatch _ _ E). apply (Hskip _ _ E).
    apply (IH (String.length s)); [|reflexivity].
    rewrite Hn. simpl. lia.
Qed.



(** ** Decimal text and [int] *)









(** ** The bounds *)

Lemma in_boundsb_spec (t : component) :
  in_boundsb t = true <-> in_bounds t.
Proof.
  destruct t as [[count sides] modifier].
  unfold in_boundsb, in_bounds, count_ok, sides_ok.
  rewrite !andb_true_iff, !Z.leb_le. tauto.
Qed.

Lemma check_bounds_ok (t : component) :
  in_bounds t -> check_bounds t = Ok t.
Proof.
  destruct t as [[count sides] modifier].
  unfold in_bounds, count_ok, sides_ok, check_bounds. intros [Hc Hs].
  replace (count <=? 0) with false by (symmetry; apply Z.leb_gt; lia).
  replace (count >? 100) with false by (symmetry; rewrite Z.gtb_ltb; apply Z.ltb_ge; lia).
  replace (sides <=? 0) with false by (symmetry; apply Z.leb_gt; lia).
  replace (sides >? 1000) with false by (symmetry; rewrite Z.gtb_ltb; apply Z.ltb_ge; lia).
  reflexivity.
Qed.

Lemma check_bounds_violation (t : component) :
  ~ in_bounds t -> check_bounds t = Raise (bound_error t).
Proof.
  destruct t as [[count sides] modifier].
  unfold in_bounds, count_ok, sides_ok, check_bounds, bound_error.
  intros H. rewrite !Z.gtb_ltb.
  destruct (Z.leb_spec count 0); destruct (Z.ltb_spec 100 count);
    destruct (Z.leb_spec 1 count); destruct (Z.leb_spec count 100);
    try lia; cbn [orb andb]; try reflexivity.
  destruct (Z.leb_spec sides 0); destruct (Z.ltb_spec 1000 sides);
    try lia; cbn [orb]; reflexivity.
Qed.

Lemma check_bounds_inv (t t' : component) :
  check_bounds t = Ok t' -> t' = t /\ in_bounds t.
Proof.
  intros H. destruct (in_boundsb t) eqn:E.
  - apply in_boundsb_spec in E. rewrite (check_bounds_ok t E) in H.
    injection H as <-. now split.
  - assert (Hn : ~ in_bounds t).
    { intros Hb. apply in_boundsb_spec in Hb. congruence. }
    rewrite (check_bounds_violation t Hn) in H. discriminate.
Qed.

(** ** The loop of the parser *)

Lemma parse_loop_ok (ms : list (list string)) ts acc :
  convert_all ms = Ok ts -> Forall in_bounds ts ->
  parse_loop ms acc = Ok (acc ++ ts)%list.
Proof.
  revert ts acc. induction ms as [|m ms IH]; simpl; intros ts acc Hc Hb.
  - injection Hc as <-. now rewrite app_nil_r.
  - destruct (convert_match m) as [t|]; [|discriminate]. simpl in Hc.
    destruct (convert_all ms) as [ts'|] eqn:E; [|discriminate]. simpl in Hc.
    injection Hc as <-. inversion Hb as [|? ? Ht Hts]; subst.
    cbn [bind]. rewrite (check_bounds_ok t Ht). cbn [bind].
    rewrite (IH ts' (acc ++ [t])%list eq_refl Hts).
    now rewrite <- app_assoc.
Qed.

Lemma parse_loop_violation (ms : list (list string)) pre t post acc :
  convert_all ms = Ok (pre ++ t :: post)%list ->
  Forall in_bounds pre -> ~ in_bounds t ->
  parse_loop ms acc = Raise (bound_error t).
Proof.
  revert pre acc. induction ms as [|m ms IH]; simpl; intros pre acc Hc Hb Ht.
  - injection Hc as Hc. now destruct pre.
  - destruct (convert_match m) as [t0|]; [|discriminate]. simpl in Hc.
    destruct (convert_all ms) as [ts'|] eqn:E; [|discriminate]. simpl in Hc.
    injection Hc as Hc. cbn [bind].
    destruct pre as [|p pre]; simpl in Hc; injection Hc as -> ->.
    + now rewrite (check_bounds_violation t Ht).
    + inversion Hb as [|? ? Hp Hpre]; subst.
      rewrite (check_bounds_ok p Hp). cbn [bind].
      now apply (IH pre).
Qed.

Lemma parse_loop_inv (ms : list (list string)) acc out :
  parse_loop ms acc = Ok out ->
  exists ts, convert_all ms = Ok ts /\ Forall in_bounds ts /\ out = (acc ++ ts)%list.
Proof.
  revert acc out. induction ms as [|m ms IH]; simpl; intros acc out H.
  - injection H as <-. exists []. now rewrite app_nil_r.
  - destruct (convert_match m) as [t|]; [|discriminate]. cbn [bind] in *.
    destruct (check_bounds t) as [t'|] eqn:Ec; [|discriminate].
    cbn [bind] in H. apply check_bounds_inv in Ec as [-> Ht].
    destruct (IH _ _ H) as (ts & -> & Hts & ->).
    exists (t :: ts). cbn [bind]. repeat split.
    + now constructor.
    + now rewrite <- app_assoc.
Qed.

(** Whatever the parser raises is a [ValueError]. *)
Lemma int_raises (s : string) e :
  Py.int s = Raise e ->
  e = ValueError ("invalid literal for int() with base 10: " ++ Py.repr s).
Proof.
  unfold Py.int. intros H.
  destruct s as [|b s].
  - destruct (Py.digits_value ""); [discriminate | now injection H as <-].
  - destruct b as [[|] [|] [|] [|] [|] [|] [|] [|]];
      match type of H with
      | context [Py.digits_value ?x] => destruct (Py.digits_value x)
      end; try discriminate; now injection H as <-.
Qed.

Lemma convert_match_raises (m : list string) e :
  convert_match m = Raise e -> loop_error e.
Proof.
  unfold convert_match, unpack3. intros H.
  destruct m as [|a [|b [|c [|d m]]]]; cbn [bind] in H;
    try (injection H as <-; constructor).
  destruct (truthy a).
  - destruct (Py.int a) eqn:Ea; cbn [bind] in H.
    2:{ injection H as <-. apply int_raises in Ea as ->. constructor. }
    destruct (Py.int b) eqn:Eb; cbn [bind] in H.
    2:{ injection H as <-. apply int_raises in Eb as ->. constructor. }
    destruct (truthy c); [|discriminate].
    destruct (Py.int c) eqn:Ec; cbn [bind] in H; [discriminate|].
    injection H as <-. apply int_raises in Ec as ->. constructor.
  - cbn [bind] in H.
    destruct (Py.int b) eqn:Eb; cbn [bind] in H.
    2:{ injection H as <-. apply int_raises in Eb as ->. constructor. }
    destruct (truthy c); [|discriminate].
    destruct (Py.int c) eqn:Ec; cbn [bind] in H; [discriminate|].
    injection H as <-. apply int_raises in Ec as ->. constructor.
Qed.

Lemma check_bounds_raises (t : component) e :
  check_bounds t = Raise e -> loop_error e.
Proof.
  destruct t as [[count sides] modifier]. unfold check_bounds. intros H.
  destruct ((count <=? 0) || (count >? 100)).
  - injection H as <-. apply le_count.
  - destruct ((sides <=? 0) || (sides >? 1000)); [|discriminate].
    injection H as <-. apply le_sides.
Qed.

Lemma parse_loop_raises (ms : list (list string)) acc e :
  parse_loop ms acc = Raise e -> loop_error e.
Proof.
  revert acc. induction ms as [|m ms IH]; simpl; intros acc H;
    [discriminate|].
  destruct (convert_match m) as [t|e0] eqn:Em; cbn [bind] in H.
  2:{ injection H as <-. exact (convert_match_raises _ _ Em). }
  destruct (check_bounds t) as [t'|e0] eqn:Ec; cbn [bind] in H.
  2:{ injection H as <-. exact (check_bounds_raises _ _ Ec). }
  exact (IH _ H).
Qed.


Lemma loop_error_not_expression e text :
  loop_error e -> e <> InvalidExpression text.
Proof.
  unfold InvalidExpression, InvalidDiceCount, InvalidDiceSides.
  destruct 1; simpl; discriminate.
Qed.

(** ** Decimal text written by [str] *)

Lemma all_digits_of_uint (d : uint) :
  all_digits (NilEmpty.string_of_uint d) = true.
Proof. induction d; simpl; auto. Qed.

Lemma truthy_of_uint (d : uint) :
  d <> Nil -> truthy (NilEmpty.string_of_uint d) = true.
Proof. destruct d; simpl; congruence. Qed.

Lemma digits_value_of_uint (d : uint) :
  d <> Nil ->
  Py.digits_value (NilEmpty.string_of_uint d) = Some (Z.of_uint d).
Proof.
  intros Hd. unfold Py.digits_value, NilZero.uint_of_string.
  pose proof (truthy_of_uint d Hd) as Ht.
  pose proof (NilEmpty.usu d) as Hu.
  destruct (NilEmpty.string_of_uint d); [discriminate|].
  now rewrite Hu.
Qed.

Lemma str_nonneg (n : Z) :
  0 <= n ->
  exists d, d <> Nil /\ Py.str n = NilEmpty.string_of_uint d /\
            Z.of_uint d = n.
Proof.
  intros Hn. destruct n as [|p|p]; [| |lia].
  - exists zero. repeat split. discriminate.
  - exists (Pos.to_uint p). repeat split.
    + apply DecimalPos.Unsigned.to_uint_nonnil.
    + unfold Z.of_uint. now rewrite DecimalPos.Unsigned.of_to.
Qed.

Lemma str_neg (n : Z) :
  n < 0 ->
  exists d, d <> Nil /\ Py.str n = String "-" (NilEmpty.string_of_uint d) /\
            Z.of_uint d = - n.
Proof.
  intros Hn. destruct n as [|p|p]; [lia|lia|].
  exists (Pos.to_uint p). repeat split.
  - apply DecimalPos.Unsigned.to_uint_nonnil.
  - unfold Z.of_uint. now rewrite DecimalPos.Unsigned.of_to.
Qed.

Lemma int_unsigned (s : string) (v : Z) :
  all_digits s = true -> Py.digits_value s = Some v -> Py.int s = Ok v.
Proof.
  intros Hd Hv. destruct s as [|b s]; [discriminate|]. simpl in Hd.
  apply andb_true_iff in Hd as [Hb _].
  unfold Py.int. rewrite Hv.
  destruct b as [[|] [|] [|] [|] [|] [|] [|] [|]]; try discriminate Hb;
    reflexivity.
Qed.

(** [int(str(n))] for a natural number. *)
Lemma int_str_nonneg (n : Z) : 0 <= n -> Py.int (Py.str n) = Ok n.
Proof.
  intros Hn. destruct (str_nonneg n Hn) as (d & Hd & -> & Hv).
  apply int_unsigned; [apply all_digits_of_uint|].
  now rewrite digits_value_of_uint, Hv.
Qed.

(** [int(f"{n:+d}")] for every integer. *)
Lemma int_format_plus_d (n : Z) : Py.int (Py.format_plus_d n) = Ok n.
Proof.
  unfold Py.format_plus_d. destruct (Z.ltb_spec n 0) as [Hn|Hn].
  - destruct (str_neg n Hn) as (d & Hd & -> & Hv).
    unfold Py.int. rewrite (digits_value_of_uint d Hd), Hv.
    f_equal. lia.
  - destruct (str_nonneg n Hn) as (d & Hd & -> & Hv).
    cbn [append]. unfold Py.int.
    now rewrite (digits_value_of_uint d Hd), Hv.
Qed.

(** The text [f"{n:+d}"]: a sign and a run of digits. *)
Lemma format_plus_d_shape (n : Z) :
  exists sg ds, Py.format_plus_d n = String sg ds /\ is_sign sg = true /\
                all_digits ds = true /\ truthy ds = true.
Proof.
  unfold Py.format_plus_d. destruct (Z.ltb_spec n 0) as [Hn|Hn].
  - destruct (str_neg n Hn) as (d & Hd & -> & _).
    exists "-"%char, (NilEmpty.string_of_uint d).
    auto using all_digits_of_uint, truthy_of_uint.
  - destruct (str_nonneg n Hn) as (d & Hd & -> & _).
    exists "+"%char, (NilEmpty.string_of_uint d).
    auto using all_digits_of_uint, truthy_of_uint.
Qed.

Lemma str_shape (n : Z) :
  0 <= n -> all_digits (Py.str n) = true /\ truthy (Py.str n) = true.
Proof.
  intros Hn. destruct (str_nonneg n Hn) as (d & Hd & -> & _).
  auto using all_digits_of_uint, truthy_of_uint.
Qed.

(** ** Cleaning *)

Lemma replace_append (old : ascii) (new a b : string) :
  Py.replace old new (a ++ b)
  = Py.replace old new a ++ Py.replace old new b.
Proof.
  induction a as [|x a IH]; simpl; [reflexivity|].
  destruct (Ascii.eqb x old); rewrite IH; [|reflexivity].
  now rewrite append_assoc.
Qed.

Lemma lower_append (a b : string) :
  Py.lower (a ++ b) = Py.lower a ++ Py.lower b.
Proof. induction a as [|x a IH]; simpl; [reflexivity | now rewrite IH]. Qed.

Lemma clean_append (a b : string) : clean (a ++ b) = clean a ++ clean b.
Proof. unfold clean. now rewrite replace_append, lower_append. Qed.

Lemma clean_digit (b : ascii) (s : string) :
  Py.is_digit b = true -> clean (String b s) = String b (clean s).
Proof.
  destruct b as [[|] [|] [|] [|] [|] [|] [|] [|]]; intros H;
    try discriminate H; reflexivity.
Qed.

Lemma clean_digits (s : string) : all_digits s = true -> clean s = s.
Proof.
  induction s as [|b s IH]; simpl; intros H; [reflexivity|].
  apply andb_true_iff in H as [Hb Hs].
  now rewrite (clean_digit b s Hb), (IH Hs).
Qed.

Lemma clean_sign (sg : ascii) (s : string) :
  is_sign sg = true -> clean (String sg s) = String sg (clean s).
Proof.
  unfold is_sign. intros H. apply orb_true_iff in H as [H|H];
    apply Ascii.eqb_eq in H; subst sg; reflexivity.
Qed.

Lemma take_digits_all (s : string) :
  all_digits s = true -> take_digits s = s /\ drop_digits s = "".
Proof.
  intros H. destruct (take_digits_append s "" H eq_refl) as [Ht Hd].
  now rewrite append_nil_r in Ht, Hd.
Qed.

Lemma take_digits_sign (sg : ascii) (s : string) :
  is_sign sg = true -> take_digits (String sg s) = "".
Proof.
  unfold is_sign. intros H. apply orb_true_iff in H as [H|H];
    apply Ascii.eqb_eq in H; subst sg; reflexivity.
Qed.

(** ** One rendered term *)

Lemma match_at_unsigned (dc ds : string) :
  all_digits dc = true -> all_digits ds = true -> truthy ds = true ->
  match_at (dc ++ "d" ++ ds) = Some ([dc; ds; ""], "").
Proof.
  intros Hc Hs Ts. unfold match_at.
  destruct (take_digits_append dc ("d" ++ ds) Hc eq_refl) as [-> ->].
  cbn [append]. destruct (take_digits_all ds Hs) as [-> ->].
  now rewrite Ts.
Qed.

Lemma match_at_signed (dc ds : string) (sg : ascii) (dm : string) :
  all_digits dc = true -> all_digits ds = true -> truthy ds = true ->
  is_sign sg = true -> all_digits dm = true -> truthy dm = true ->
  match_at (dc ++ "d" ++ ds ++ String sg dm)
  = Some ([dc; ds; String sg dm], "").
Proof.
  intros Hc Hs Ts Hsg Hm Tm. unfold match_at.
  destruct (take_digits_append dc ("d" ++ ds ++ String sg dm) Hc eq_refl)
    as [-> ->].
  cbn [append].
  destruct (take_digits_append ds (String sg dm) Hs
              (take_digits_sign sg dm Hsg)) as [-> ->].
  rewrite Ts, Hsg. destruct (take_digits_all dm Hm) as [-> ->].
  now rewrite Tm.
Qed.

Lemma findall_single (s : string) gs :
  match_at s = Some (gs, "") -> findall pattern 3 s = [gs].
Proof. intros H. now rewrite (findall_match s gs "" H), findall_empty. Qed.

(** ** Draws *)




Lemma randint_ok (sides : Z) (g : rng) :
  1 <= sides ->
  exists r, randint 1 sides g = (Ok r, advance g) /\ 1 <= r <= sides.
Proof.
  intros Hs. unfold randint.
  replace (sides <? 1) with false by (symmetry; apply Z.ltb_ge; lia).
  eexists. split; [reflexivity|].
  pose proof (Z.mod_pos_bound (entropy g (cursor g)) (sides - 1 + 1)).
  lia.
Qed.

Lemma roll_list_ok (sides : Z) (n : nat) (g : rng) :
  1 <= sides ->
  exists draws g',
    roll_list sides n g = (Ok draws, g') /\
    List.length draws = n /\
    Forall (fun r => 1 <= r <= sides) draws.
Proof.
  intros Hs. revert g. induction n as [|n IH]; intros g.
  - exists [], g. repeat split. constructor.
  - destruct (randint_ok sides g Hs) as (r & Hr & Hb).
    destruct (IH (advance g)) as (rs & g' & Hrs & Hlen & Hall).
    exists (r :: rs), g'. cbn [roll_list]. unfold bindM at 1.
    rewrite Hr. unfold bindM at 1. rewrite Hrs.
    repeat split; [simpl; now rewrite Hlen | now constructor].
Qed.

(** Every list of draws within [1, sides] is what some generator
    produces: the model of the random source leaves no outcome out. *)
Lemma roll_list_from (sides : Z) (draws pre suffix : list Z) :
  1 <= sides ->
  Forall (fun r => 1 <= r <= sides) suffix ->
  draws = (pre ++ suffix)%list ->
  roll_list sides (List.length suffix)
    {| entropy := entropy (Sample.source_of draws);
       cursor := List.length pre |}
  = (Ok suffix,
     {| entropy := entropy (Sample.source_of draws);
        cursor := List.length pre + List.length suffix |}).
Proof.
  intros Hs Hall. revert pre.
  induction Hall as [|r rs Hr _ IH]; intros pre Hd.
  - cbn. now rewrite Nat.add_0_r.
  - cbn [List.length roll_list]. unfold bindM at 1.
    unfold randint.
    replace (sides <? 1) with false by (symmetry; apply Z.ltb_ge; lia).
    cbn [entropy cursor Sample.source_of].
    assert (Hn : nth (List.length pre) draws 1 = r).
    { rewrite Hd. rewrite app_nth2; [|apply Nat.le_refl].
      now rewrite Nat.sub_diag. }
    rewrite Hn.
    replace (1 + (r - 1) mod (sides - 1 + 1)) with r
      by (rewrite Z.mod_small; lia).
    unfold advance. cbn [entropy cursor].
    specialize (IH (pre ++ [r])%list).
    rewrite length_app in IH. cbn [List.length] in IH.
    replace (List.length pre + 1)%nat with (S (List.length pre)) in IH
      by lia.
    unfold bindM at 1. cbn [Sample.source_of entropy] in IH.
    rewrite IH by (now rewrite <- app_assoc).
    unfold ret.
    replace (S (List.length pre) + List.length rs)%nat
      with (List.length pre + S (List.length rs))%nat by lia.
    reflexivity.
Qed.

Lemma roll_list_any (sides : Z) (draws : list Z) :
  1 <= sides ->
  Forall (fun r => 1 <= r <= sides) draws ->
  fst (roll_list sides (List.length draws) (Sample.source_of draws))
  = Ok draws.
Proof.
  intros Hs Hall.
  pose proof (roll_list_from sides draws [] draws Hs Hall eq_refl) as H.
  cbn [List.length] in H. unfold Sample.source_of at 1.
  cbn [entropy Sample.source_of] in H. now rewrite H.
Qed.

(** ** The breakdown *)

Lemma roll_detail_eq (rolls : list Z) :
  roll_detail rolls = Ok ("[" ++ Py.join "+" (map Py.str rolls) ++ "]").
Proof.
  unfold roll_detail.
  destruct rolls as [|r [|r' rs]]; reflexivity.
Qed.

Lemma signed_modifier_format (modifier : Z) :
  modifier <> 0 -> Py.format_plus_d modifier = signed_modifier modifier.
Proof.
  intros H. unfold Py.format_plus_d, signed_modifier.
  destruct (Z.eqb_spec modifier 0); [contradiction|].
  destruct (Z.ltb_spec modifier 0); destruct (Z.ltb_spec 0 modifier);
    try lia; reflexivity.
Qed.

Lemma breakdown_part_eq (count sides modifier : Z) (rolls : list Z) :
  breakdown_part count sides modifier rolls (Py.sum rolls + modifier)
  = Ok (fragment (count, sides, modifier) rolls).
Proof.
  unfold breakdown_part, fragment. rewrite roll_detail_eq. cbn [bind].
  destruct (Z.eqb_spec modifier 0) as [->|Hm]; cbn [negb].
  - unfold signed_modifier. cbn [Z.eqb].
    now rewrite !append_assoc.
  - rewrite (signed_modifier_format modifier Hm).
    now rewrite !append_assoc.
Qed.

Lemma roll_loop_ok (ts : list component) :
  Forall in_bounds ts ->
  forall (total : Z) (parts : list string) (g : rng),
  exists dss g',
    roll_loop ts total parts g
    = (Ok (total + subtotals ts dss, (parts ++ fragments ts dss)%list), g')
    /\ Forall2 draws_ok ts dss.
Proof.
  induction 1 as [|[[count sides] modifier] ts Ht _ IH]; intros total parts g.
  - exists [], g. cbn. rewrite Z.add_0_r, app_nil_r. split; constructor.
  - destruct Ht as [Hc Hs]. unfold count_ok, sides_ok in Hc, Hs.
    destruct (roll_list_ok sides (Z.to_nat count) g (proj1 Hs))
      as (draws & g1 & Hroll & Hlen & Hall).
    destruct (IH (total + (Py.sum draws + modifier))
                 (parts ++ [fragment (count, sides, modifier) draws])%list g1)
      as (dss & g' & Hloop & Hdss).
    exists (draws :: dss), g'. split.
    + cbn [roll_loop]. unfold bindM at 1. rewrite Hroll.
      unfold bindM at 1, lift. rewrite breakdown_part_eq.
      rewrite Hloop. cbn [subtotals fragments subtotal].
      rewrite <- app_assoc. cbn [app]. do 3 f_equal. lia.
    + constructor; [|exact Hdss]. split; [lia | exact Hall].
Qed.

Lemma evaluate_ok (ts : list component) (g : rng) :
  Forall in_bounds ts ->
  exists dss g',
    evaluate ts g
    = (Ok (subtotals ts dss, Py.join " | " (fragments ts dss)), g')
    /\ Forall2 draws_ok ts dss.
Proof.
  intros H. destruct (roll_loop_ok ts H 0 [] g) as (dss & g' & Hloop & Hd).
  exists dss, g'. split; [|exact Hd].
  unfold evaluate, bindM. rewrite Hloop. reflexivity.
Qed.

(** A successful parse returns the whole extracted sequence, every term
    within its bounds. *)
Lemma parse_ok_inv (expression : string) ts :
  parse_dice_expression expression = Ok ts ->
  extracted expression = Ok ts /\ Forall in_bounds ts.
Proof.
  unfold parse_dice_expression, extracted. intros H.
  destruct (findall pattern 3 (clean expression)) as [|m ms] eqn:E;
    [discriminate|].
  destruct (parse_loop_inv _ _ _ H) as (ts' & Hc & Hb & ->).
  now split.
Qed.

Lemma parse_raises (expression : string) e :
  parse_dice_expression expression = Raise e ->
  e = InvalidExpression (clean expression) \/ loop_error e.
Proof.
  unfold parse_dice_expression. intros H.
  destruct (findall pattern 3 (clean expression)) as [|m ms] eqn:E.
  - left. now injection H as <-.
  - right. exact (parse_loop_raises _ _ _ H).
Qed.




Lemma roll_dice_raises (expression : string) (g : rng) e :
  parse_dice_expression expression = Raise e ->
  roll_dice expression g
  = (Raise (ValueError ("Error rolling dice: " ++ str_exn e)), g).
Proof.
  intros Hp. unfold roll_dice, bindM, lift. now rewrite Hp.
Qed.

(** ** Two adjacent terms *)

Lemma match_at_signed_then (dc ds : string) (sg : ascii) (dm rest : string) :
  all_digits dc = true -> all_digits ds = true -> truthy ds = true ->
  is_sign sg = true -> all_digits dm = true -> truthy dm = true ->
  take_digits rest = "" ->
  match_at (dc ++ "d" ++ ds ++ String sg dm ++ rest)
  = Some ([dc; ds; String sg dm], rest).
Proof.
  intros Hc Hs Ts Hsg Hm Tm Hr. unfold match_at.
  destruct (take_digits_append dc ("d" ++ ds ++ String sg dm ++ rest)
              Hc eq_refl) as [-> ->].
  cbn [append].
  destruct (take_digits_append ds (String sg (dm ++ rest)) Hs
              (take_digits_sign sg _ Hsg)) as [-> ->].
  rewrite Ts, Hsg. destruct (take_digits_append dm rest Hm Hr) as [-> ->].
  now rewrite Tm.
Qed.

Lemma convert_match_rendered (count sides modifier : Z) :
  0 <= count -> 0 <= sides ->
  convert_match [Py.str count; Py.str sides; Py.format_plus_d modifier]
  = Ok (count, sides, modifier).
Proof.
  intros Hc Hs. unfold convert_match. cbn [unpack3 bind].
  destruct (str_shape count Hc) as [_ ->].
  rewrite (int_str_nonneg count Hc), (int_str_nonneg sides Hs). cbn [bind].
  destruct (format_plus_d_shape modifier) as (sg & ds & E & _).
  rewrite E at 1. cbn [truthy].
  now rewrite int_format_plus_d.
Qed.

Lemma convert_match_unsigned (count sides : Z) :
  0 <= count -> 0 <= sides ->
  convert_match [Py.str count; Py.str sides; ""] = Ok (count, sides, 0).
Proof.
  intros Hc Hs. unfold convert_match. cbn [unpack3 bind].
  destruct (str_shape count Hc) as [_ ->].
  now rewrite (int_str_nonneg count Hc), (int_str_nonneg sides Hs).
Qed.

Lemma convert_match_default_count (sides : Z) :
  0 <= sides -> convert_match [""; Py.str sides; ""] = Ok (1, sides, 0).
Proof.
  intros Hs. unfold convert_match. cbn [unpack3 bind truthy].
  now rewrite (int_str_nonneg sides Hs).
Qed.

Lemma clean_str (n : Z) : 0 <= n -> clean (Py.str n) = Py.str n.
Proof. intros H. apply clean_digits, (str_shape n H). Qed.

Lemma clean_format_plus_d (n : Z) :
  clean (Py.format_plus_d n) = Py.format_plus_d n.
Proof.
  destruct (format_plus_d_shape n) as (sg & ds & -> & Hsg & Hd & _).
  now rewrite (clean_sign sg ds Hsg), (clean_digits ds Hd).
Qed.

(** What the parser does with a term followed by '+' and a second term:
    the digits after the '+' become the modifier of the first term, and
    the second term is left with the default count. *)
Lemma parse_adjacent_general (x y z w : Z) :
  count_ok x -> sides_ok y -> 0 <= z -> sides_ok w ->
  parse_dice_expression
    (Py.str x ++ "d" ++ Py.str y ++ "+" ++ Py.str z ++ "d" ++ Py.str w)
  = Ok [(x, y, z); (1, w, 0)].
Proof.
  unfold count_ok, sides_ok. intros Hx Hy Hz Hw.
  assert (Hplus : "+" ++ Py.str z = Py.format_plus_d z).
  { unfold Py.format_plus_d.
    now replace (z <? 0) with false by (symmetry; apply Z.ltb_ge; lia). }
  unfold parse_dice_expression.
  replace (clean (Py.str x ++ "d" ++ Py.str y ++ "+" ++ Py.str z
                    ++ "d" ++ Py.str w))
    with (Py.str x ++ "d" ++ Py.str y ++ String "+" (Py.str z)
            ++ ("d" ++ Py.str w)).
  2:{ rewrite !clean_append, !clean_str by lia. reflexivity. }
  destruct (str_shape x ltac:(lia)) as [Dx _].
  destruct (str_shape y ltac:(lia)) as [Dy Ty].
  destruct (str_shape z Hz) as [Dz Tz].
  destruct (str_shape w ltac:(lia)) as [Dw Tw].
  rewrite (findall_match _ _ _
             (match_at_signed_then _ _ "+" _ ("d" ++ Py.str w)
                Dx Dy Ty eq_refl Dz Tz eq_refl)).
  rewrite (findall_single ("d" ++ Py.str w) _
             (match_at_unsigned "" (Py.str w) eq_refl Dw Tw)).
  change (String "+" (Py.str z)) with ("+" ++ Py.str z). rewrite Hplus.
  apply (parse_loop_ok _ [(x, y, z); (1, w, 0)] []).
  - cbn [convert_all].
    rewrite convert_match_rendered, convert_match_default_count by lia.
    reflexivity.
  - repeat constructor; unfold count_ok, sides_ok; lia.
Qed.

(* ================================================================== *)
(** * The claims *)
(* ================================================================== *)

(** C1 (what the code does at the input of the claim).  The claim reads
    "1d4+1d6" as the terms (1,4,0) and (1,6,0).  The matcher is greedy:
    group 3 takes "+1", so the first term gets modifier +1 and what is
    left, "d6", is a term with the default count.  With "1d4+2d6" the
    second term loses a die. *)
Theorem parse_adjacent_terms_absorbs_count :
  parse_dice_expression "1d4+1d6" = Ok [(1, 4, 1); (1, 6, 0)] /\
  parse_dice_expression "1d4+1d6" <> Ok [(1, 4, 0); (1, 6, 0)] /\
  parse_dice_expression "1d4+2d6" = Ok [(1, 4, 2); (1, 6, 0)] /\
  Re.findall pattern 3 "1d4+1d6" = [["1"; "4"; "+1"]; [""; "6"; ""]].
Proof.
  split; [reflexivity|].
  split; [vm_compute; discriminate|].
  split; reflexivity.
Qed.

(** C2.  Round trip of one term: for 1 <= count <= 100 and
    1 <= sides <= 1000 and every integer modifier, parsing the text
    "{count}d{sides}{modifier:+d}" yields exactly the term
    (count, sides, modifier); for modifier 0 the unsigned text
    "{count}d{sides}" yields it too. *)
Theorem parse_render_roundtrip (count sides modifier : Z) :
  1 <= count <= 100 -> 1 <= sides <= 1000 ->
  parse_dice_expression (render count sides modifier)
  = Ok [(count, sides, modifier)]
  /\ (modifier = 0 ->
      parse_dice_expression (render_unsigned count sides)
      = Ok [(count, sides, modifier)]).
Proof.
  intros Hc Hs.
  destruct (str_shape count ltac:(lia)) as [Dc _].
  destruct (str_shape sides ltac:(lia)) as [Ds Ts].
  split.
  - unfold parse_dice_expression, render.
    rewrite !clean_append, !clean_str, clean_format_plus_d by lia.
    change (clean "d") with "d".
    assert (Hfind : findall pattern 3
                      (Py.str count ++ "d" ++ Py.str sides
                         ++ Py.format_plus_d modifier)
                    = [[Py.str count; Py.str sides;
                        Py.format_plus_d modifier]]).
    { destruct (format_plus_d_shape modifier)
        as (sg & dm & -> & Hsg & Dm & Tm).
      exact (findall_single _ _
               (match_at_signed _ _ sg dm Dc Ds Ts Hsg Dm Tm)). }
    rewrite Hfind.
    apply (parse_loop_ok _ [(count, sides, modifier)] []).
    + cbn [convert_all]. now rewrite convert_match_rendered by lia.
    + repeat constructor; unfold count_ok, sides_ok; lia.
  - intros ->. unfold parse_dice_expression, render_unsigned.
    rewrite !clean_append, !clean_str by lia.
    change (clean "d") with "d".
    rewrite (findall_single _ _ (match_at_unsigned _ _ Dc Ds Ts)).
    apply (parse_loop_ok _ [(count, sides, 0)] []).
    + cbn [convert_all]. now rewrite convert_match_unsigned by lia.
    + repeat constructor; unfold count_ok, sides_ok; lia.
Qed.

Lemma parse_render_roundtrip_witness :
  (1 <= 2 <= 100 /\ 1 <= 6 <= 1000) /\
  parse_dice_expression "2d6-3" = Ok [(2, 6, -3)].
Proof.
  split; [lia|].
  apply (proj1 (parse_render_roundtrip 2 6 (-3)
                  ltac:(lia) ltac:(lia))).
Defined.

(** C3.  When the extracted terms of an expression contain a term out of
    its bounds, the parser fails on the leftmost such term: with
    InvalidDiceCount when its count is outside [1,100], otherwise with
    InvalidDiceSides (its sides are then outside [1,1000]); and no list of
    terms is returned.  So parse("101d6") fails with InvalidDiceCount and
    parse("1d1001") with InvalidDiceSides. *)
Theorem parse_first_violation (expression : string)
    (pre : list component) (t : component) (post : list component) :
  extracted expression = Ok (pre ++ t :: post)%list ->
  Forall in_bounds pre ->
  ~ in_bounds t ->
  parse_dice_expression expression = Raise (bound_error t)
  /\ (let '(count, sides, _) := t in
      (~ count_ok count -> bound_error t = InvalidDiceCount count) /\
      (count_ok count ->
       bound_error t = InvalidDiceSides sides /\ ~ sides_ok sides))
  /\ (forall ts, parse_dice_expression expression <> Ok ts).
Proof.
  intros Hex Hpre Ht.
  assert (Hparse : parse_dice_expression expression = Raise (bound_error t)).
  { unfold parse_dice_expression. unfold extracted in Hex.
    destruct (findall pattern 3 (clean expression)) as [|m ms] eqn:E.
    - cbn in Hex. injection Hex as Hex. now destruct pre.
    - exact (parse_loop_violation _ _ _ _ _ Hex Hpre Ht). }
  split; [exact Hparse|]. split.
  - destruct t as [[count sides] modifier].
    unfold bound_error, in_bounds, count_ok, sides_ok in *.
    split; intros Hc.
    + destruct (Z.leb_spec 1 count); destruct (Z.leb_spec count 100);
        cbn [andb]; try reflexivity. lia.
    + destruct (Z.leb_spec 1 count); destruct (Z.leb_spec count 100);
        cbn [andb]; try lia. split; [reflexivity | lia].
  - intros ts. rewrite Hparse. discriminate.
Qed.

Lemma parse_first_violation_witness :
  (extracted "101d6" = Ok ([] ++ (101, 6, 0) :: [])%list /\
   Forall in_bounds [] /\ ~ in_bounds (101, 6, 0)) /\
  parse_dice_expression "101d6" = Raise (InvalidDiceCount 101) /\
  parse_dice_expression "1d1001" = Raise (InvalidDiceSides 1001) /\
  parse_dice_expression "2d6+1, 101d6, 1d1001" = Raise (InvalidDiceCount 101).
Proof.
  assert (H1 : ~ in_bounds (101, 6, 0))
    by (unfold in_bounds, count_ok; lia).
  assert (H2 : ~ in_bounds (1, 1001, 0))
    by (unfold in_bounds, sides_ok; lia).
  split; [split; [reflexivity | split; [constructor | exact H1]]|].
  split; [|split].
  - exact (proj1 (parse_first_violation "101d6" [] (101, 6, 0) []
                    eq_refl (Forall_nil _) H1)).
  - exact (proj1 (parse_first_violation "1d1001" [] (1, 1001, 0) []
                    eq_refl (Forall_nil _) H2)).
  - refine (proj1 (parse_first_violation "2d6+1, 101d6, 1d1001"
                     [(2, 6, 1)] (101, 6, 0) [(1, 1001, 0)]
                     eq_refl _ H1)).
    repeat constructor; unfold count_ok, sides_ok; lia.
Defined.



(** C5 (counterexample).  A tab is whitespace, and it is not removed:
    inserting one in "2d6+3" changes the parse. *)
Lemma parse_tab_not_stripped :
  parse_dice_expression ("2d6" ++ String Sample.tab "+3") = Ok [(2, 6, 0)]
  /\ parse_dice_expression "2d6+3" = Ok [(2, 6, 3)]
  /\ parse_dice_expression ("2d6" ++ String Sample.tab "+3")
     <> parse_dice_expression "2d6+3".
Proof.
  split; [reflexivity|]. split; [reflexivity|].
  vm_compute. discriminate.
Qed.

(** C5 (amended).  The parse is unchanged by inserting space characters
    (U+0020) anywhere and by replacing a 'd' with 'D' or the reverse:
    two texts with the same cleaned form have the same parse. *)
Theorem parse_space_case_invariant :
  (forall a b : string,
      parse_dice_expression (a ++ " " ++ b) = parse_dice_expression (a ++ b))
  /\ (forall a b : string,
      parse_dice_expression (a ++ "D" ++ b)
      = parse_dice_expression (a ++ "d" ++ b))
  /\ (forall s s' : string,
      clean s = clean s' ->
      parse_dice_expression s = parse_dice_expression s').
Proof.
  assert (H : forall s s', clean s = clean s' ->
              parse_dice_expression s = parse_dice_expression s').
  { intros s s' E. unfold parse_dice_expression. now rewrite E. }
  repeat split.
  - intros a b. apply H. now rewrite !clean_append.
  - intros a b. apply H. now rewrite !clean_append.
  - exact H.
Qed.

Lemma parse_space_case_invariant_witness :
  clean " 2D6 + 3" = clean "2d6+3" /\
  parse_dice_expression " 2D6 + 3" = parse_dice_expression "2d6+3".
Proof.
  split; [reflexivity|].
  exact (proj2 (proj2 parse_space_case_invariant) " 2D6 + 3" "2d6+3"
           eq_refl).
Defined.

(** C6.  For every term and every list of draws, the text the loop
    appends is "{count}d{sides}: [{draws joined by '+'}]{signed modifier if
    nonzero} = {subtotal}": a single draw is still bracketed, the modifier
    is written with its sign when it is not zero and left out when it is
    zero; the fragment of (2,6,-3) contains "-3" and never "+-3"; and the
    breakdown of valid terms is their fragments joined with " | ". *)
Theorem breakdown_format :
  (forall count sides modifier draws,
      breakdown_part count sides modifier draws (Py.sum draws + modifier)
      = Ok (fragment (count, sides, modifier) draws))
  /\ (forall sides modifier d,
      fragment (1, sides, modifier) [d]
      = "1d" ++ Py.str sides ++ ": [" ++ Py.str d ++ "]"
          ++ signed_modifier modifier ++ " = " ++ Py.str (d + modifier))
  /\ (signed_modifier 0 = "" /\ signed_modifier 3 = "+3"
      /\ signed_modifier (-1) = "-1")
  /\ (forall g, exists draws g',
      evaluate [(2, 6, -3)] g
      = (Ok (Py.sum draws - 3, fragment (2, 6, -3) draws), g')
      /\ Py.contains "-3" (fragment (2, 6, -3) draws) = true
      /\ Py.contains "+-3" (fragment (2, 6, -3) draws) = false)
  /\ (forall ts g, Forall in_bounds ts ->
      exists dss g',
        evaluate ts g
        = (Ok (subtotals ts dss, Py.join " | " (fragments ts dss)), g')
        /\ Forall2 draws_ok ts dss).
Proof.
  split; [exact breakdown_part_eq|].
  split; [intros sides modifier d; reflexivity|].
  split; [repeat split|].
  split; [|intros ts g H; exact (evaluate_ok ts g H)].
  intros g.
  assert (Hb : Forall in_bounds [(2, 6, -3)])
    by (repeat constructor; unfold count_ok, sides_ok; lia).
  destruct (evaluate_ok _ g Hb) as (dss & g' & He & Hd).
  inversion Hd as [|? ds ? dss' Hds Hnil]; subst.
  inversion Hnil; subst. destruct Hds as [Hlen Hall].
  exists ds, g'. rewrite He. cbn [subtotals fragments subtotal Py.join].
  split; [do 3 f_equal; lia|].
  destruct ds as [|a [|b [|c ds]]]; cbn [List.length] in Hlen; try lia.
  inversion Hall as [|? ? Ha Hall']; subst.
  inversion Hall' as [|? ? Hb' _]; subst.
  assert (Ea : a = 1 \/ a = 2 \/ a = 3 \/ a = 4 \/ a = 5 \/ a = 6) by lia.
  assert (Eb : b = 1 \/ b = 2 \/ b = 3 \/ b = 4 \/ b = 5 \/ b = 6) by lia.
  clear - Ea Eb.
  destruct Ea as [->|[->|[->|[->|[->| ->]]]]];
    destruct Eb as [->|[->|[->|[->|[->| ->]]]]];
    split; vm_compute; reflexivity.
Qed.

Lemma breakdown_format_witness :
  Forall in_bounds [(2, 6, 3); (1, 20, 0); (1, 4, -1)] /\
  exists dss g',
    evaluate [(2, 6, 3); (1, 20, 0); (1, 4, -1)] Sample.sample_rng
    = (Ok (subtotals [(2, 6, 3); (1, 20, 0); (1, 4, -1)] dss,
           Py.join " | "
             (fragments [(2, 6, 3); (1, 20, 0); (1, 4, -1)] dss)), g')
    /\ Forall2 draws_ok [(2, 6, 3); (1, 20, 0); (1, 4, -1)] dss.
Proof.
  assert (H : Forall in_bounds [(2, 6, 3); (1, 20, 0); (1, 4, -1)])
    by (repeat constructor; unfold count_ok, sides_ok; lia).
  split; [exact H|].
  exact (proj2 (proj2 (proj2 (proj2 breakdown_format))) _
           Sample.sample_rng H).
Defined.

(** C7.  When no term matches in the cleaned text the parser fails with
    InvalidExpression; when at least one term matches it does not fail
    with that error.  ("hello" and the empty text are instances.) *)
Theorem parse_invalid_expression_iff (expression : string) :
  (findall pattern 3 (clean expression) = [] ->
   parse_dice_expression expression
   = Raise (InvalidExpression (clean expression)))
  /\ (findall pattern 3 (clean expression) <> [] ->
      forall text,
        parse_dice_expression expression <> Raise (InvalidExpression text)).
Proof.
  unfold parse_dice_expression. split.
  - intros ->. reflexivity.
  - intros Hne text H.
    destruct (findall pattern 3 (clean expression)) as [|m ms];
      [now apply Hne|].
    apply parse_loop_raises in H.
    exact (loop_error_not_expression _ text H eq_refl).
Qed.

Lemma parse_invalid_expression_iff_witness :
  (findall pattern 3 (clean "hello") = [] /\
   parse_dice_expression "hello" = Raise (InvalidExpression "hello"))
  /\ (findall pattern 3 (clean "") = [] /\
      parse_dice_expression "" = Raise (InvalidExpression ""))
  /\ (findall pattern 3 (clean "0d6") <> [] /\
      parse_dice_expression "0d6" <> Raise (InvalidExpression "0d6")).
Proof.
  split; [|split].
  - split; [reflexivity|].
    exact (proj1 (parse_invalid_expression_iff "hello") eq_refl).
  - split; [reflexivity|].
    exact (proj1 (parse_invalid_expression_iff "") eq_refl).
  - assert (H : findall pattern 3 (clean "0d6") <> [])
      by (vm_compute; discriminate).
    split; [exact H|].
    exact (proj2 (parse_invalid_expression_iff "0d6") H "0d6").
Defined.

(** C8.  When the combined roll operation succeeds, the expression it
    returns is the caller's text, character for character; so is the
    expression of the response of the endpoint. *)
Theorem roll_dice_echoes_expression (expression : string) (g : rng) :
  (forall total breakdown echoed g',
      roll_dice expression g = (Ok (total, breakdown, echoed), g') ->
      echoed = expression)
  /\ (forall found echoed result breakdown g',
      roll_dice_endpoint found expression g
      = (DiceRollResponse echoed result breakdown, g') ->
      echoed = expression).
Proof.
  assert (H : forall total breakdown echoed g',
             roll_dice expression g = (Ok (total, breakdown, echoed), g') ->
             echoed = expression).
  { intros total breakdown echoed g'. unfold roll_dice, bindM, lift, ret.
    destruct (parse_dice_expression expression) as [ts|e]; [|discriminate].
    destruct (evaluate ts g) as [[[tot bd]|e] g1]; [|discriminate].
    now intros [= _ _ <- _]. }
  split; [exact H|].
  intros found echoed result breakdown g'. unfold roll_dice_endpoint.
  destruct found; cbn [negb]; [|discriminate].
  destruct (validate_dice_expression expression) as [[|]|e];
    try discriminate.
  destruct (roll_dice expression g) as [[[[tot bd] ex]|[msg|msg]] g1];
    try discriminate.
  intros [= <- _ _ _]. exact (H _ _ _ _ eq_refl).
Qed.

Lemma roll_dice_echoes_expression_witness :
  roll_dice " 2D6 + 3" Sample.sample_rng
  = (Ok (12, "2d6: [4+5]+3 = 12", " 2D6 + 3"),
     advance (advance Sample.sample_rng))
  /\ " 2D6 + 3" = " 2D6 + 3".
Proof.
  assert (H : roll_dice " 2D6 + 3" Sample.sample_rng
              = (Ok (12, "2d6: [4+5]+3 = 12", " 2D6 + 3"),
                 advance (advance Sample.sample_rng)))
    by reflexivity.
  split; [exact H|].
  exact (proj1 (roll_dice_echoes_expression " 2D6 + 3" Sample.sample_rng)
           _ _ _ _ H).
Defined.

(** C9.  The validation wrapper never raises: it returns True exactly
    when the parser succeeds and False exactly when the parser fails,
    whichever of the three failures it is. *)
Theorem validate_never_raises (expression : string) :
  validate_dice_expression expression
  = Ok (match parse_dice_expression expression with
        | Ok _ => true
        | Raise _ => false
        end).
Proof.
  unfold validate_dice_expression.
  destruct (parse_dice_expression expression) as [ts|e] eqn:E.
  - reflexivity.
  - destruct (parse_raises _ _ E) as [->|Hloop].
    + reflexivity.
    + destruct Hloop; reflexivity.
Qed.

Example validate_examples :
  validate_dice_expression "2d6+3" = Ok true /\
  validate_dice_expression "hello" = Ok false /\
  validate_dice_expression "101d6" = Ok false /\
  validate_dice_expression "1d1001" = Ok false.
Proof. repeat split. Qed.




(* ================================================================== *)
(** * Further properties of dice_utils.py *)
(* ================================================================== *)

Import Terms.

(** ** What a successful parse returns *)

Lemma convert_all_length (ms : list (list string)) ts :
  convert_all ms = Ok ts -> List.length ts = List.length ms.
Proof.
  revert ts. induction ms as [|m ms IH]; simpl; intros ts H.
  - now injection H as <-.
  - destruct (convert_match m); [|discriminate]. simpl in H.
    destruct (convert_all ms) as [ts'|]; [|discriminate]. simpl in H.
    injection H as <-. simpl. now rewrite (IH ts').
Qed.

(** X1.  A successful parse returns at least one term, one term per
    match of the pattern and in the order of the matches, and every term
    satisfies 1 <= count <= 100 and 1 <= sides <= 1000. *)
Theorem parse_ok_terms (expression : string) (ts : list component) :
  parse_dice_expression expression = Ok ts ->
  ts <> [] /\
  Forall in_bounds ts /\
  extracted expression = Ok ts /\
  List.length ts = List.length (findall pattern 3 (clean expression)).
Proof.
  intros H. destruct (parse_ok_inv _ _ H) as [Hex Hb].
  pose proof (convert_all_length _ _ Hex) as Hlen.
  repeat split; try assumption.
  intros ->. unfold parse_dice_expression in H.
  destruct (findall pattern 3 (clean expression)); discriminate.
Qed.

Lemma parse_ok_terms_witness :
  parse_dice_expression "2d6+3 d20" = Ok [(2, 6, 3); (1, 20, 0)] /\
  [(2, 6, 3); (1, 20, 0)] <> [] /\
  Forall in_bounds [(2, 6, 3); (1, 20, 0)].
Proof.
  assert (H : parse_dice_expression "2d6+3 d20"
              = Ok [(2, 6, 3); (1, 20, 0)]) by reflexivity.
  split; [exact H|].
  destruct (parse_ok_terms _ _ H) as (Hne & Hb & _).
  split; assumption.
Defined.

(** ** The failures of the parser *)




(** ** Texts without a term *)

Lemma has_term_start_append (pre r : string) :
  has_term_start r = true -> has_term_start (pre ++ r) = true.
Proof.
  intros H. induction pre as [|c pre IH]; simpl; [exact H|].
  rewrite IH. apply orb_true_r.
Qed.

Lemma match_at_not_d (x : ascii) (r : string) :
  Py.is_digit x = false -> Ascii.eqb x "d" = false ->
  match_at (String x r) = None.
Proof.
  intros Hd Hx. unfold match_at. cbn [drop_digits]. rewrite Hd.
  destruct x as [[|] [|] [|] [|] [|] [|] [|] [|]]; try reflexivity.
  discriminate Hx.
Qed.

Lemma match_at_d (r : string) :
  match_at (String "d" r) = None ->
  match r with String b _ => Py.is_digit b | EmptyString => false end = false.
Proof.
  unfold match_at.
  change (drop_digits (String "d" r)) with (String "d" r). cbv iota beta.
  destruct r as [|b r]; [reflexivity|]. cbn [take_digits drop_digits].
  destruct (Py.is_digit b); [|reflexivity].
  cbn [truthy]. destruct (drop_digits r) as [|sg s4]; [discriminate|].
  destruct (is_sign sg && truthy (take_digits s4)); discriminate.
Qed.

Lemma match_at_term_start (s : string) gs rest :
  match_at s = Some (gs, rest) -> has_term_start s = true.
Proof.
  unfold match_at. intros H.
  rewrite <- (take_drop_digits s).
  destruct (drop_digits s) as [|d s2]; [discriminate|].
  destruct d as [[|] [|] [|] [|] [|] [|] [|] [|]]; try discriminate.
  apply has_term_start_append.
  destruct s2 as [|b s2]; [discriminate|]. cbn [take_digits] in H.
  cbn [has_term_start]. destruct (Py.is_digit b); [reflexivity|].
  discriminate.
Qed.

Lemma findall_nil_iff (s : string) :
  findall pattern 3 s = [] <-> has_term_start s = false.
Proof.
  apply (findall_ind (fun s ms => ms = [] <-> has_term_start s = false)).
  - split; reflexivity.
  - intros s0 gs rest H _. rewrite (match_at_term_start _ _ _ H).
    split; discriminate.
  - intros x s0 H IH. rewrite IH. cbn [has_term_start].
    destruct (Ascii.eqb_spec x "d") as [->|Hx]; cbn [andb orb];
      [|reflexivity].
    now rewrite (match_at_d s0 H).
Qed.

(** X3.  The parser fails with InvalidExpression exactly when the cleaned
    text holds no letter d directly followed by a digit. *)
Theorem invalid_expression_iff_no_term_start (expression : string) :
  (exists text,
      parse_dice_expression expression = Raise (InvalidExpression text))
  <-> has_term_start (clean expression) = false.
Proof.
  rewrite <- findall_nil_iff. unfold parse_dice_expression. split.
  - intros [text H].
    destruct (findall pattern 3 (clean expression)) as [|m ms];
      [reflexivity|].
    apply parse_loop_raises in H.
    now elim (loop_error_not_expression _ text H).
  - intros ->. now exists (clean expression).
Qed.

(** ** The default count *)

Lemma convert_match_default_signed (sides modifier : Z) :
  0 <= sides ->
  convert_match [""; Py.str sides; Py.format_plus_d modifier]
  = Ok (1, sides, modifier).
Proof.
  intros Hs. unfold convert_match. cbn [unpack3 bind truthy].
  rewrite (int_str_nonneg sides Hs). cbn [bind].
  destruct (format_plus_d_shape modifier) as (sg & ds & E & _).
  rewrite E at 1. cbn [truthy].
  now rewrite int_format_plus_d.
Qed.

(** X4.  A term written without a count has count 1: for
    1 <= sides <= 1000 the text "d{sides}" parses to (1, sides, 0) and the
    text "d{sides}{modifier:+d}" to (1, sides, modifier). *)
Theorem parse_default_count (sides modifier : Z) :
  1 <= sides <= 1000 ->
  parse_dice_expression ("d" ++ Py.str sides) = Ok [(1, sides, 0)]
  /\ parse_dice_expression ("d" ++ Py.str sides ++ Py.format_plus_d modifier)
     = Ok [(1, sides, modifier)].
Proof.
  intros Hs. destruct (str_shape sides ltac:(lia)) as [Ds Ts].
  split.
  - unfold parse_dice_expression.
    replace (clean ("d" ++ Py.str sides)) with ("" ++ "d" ++ Py.str sides)
      by (rewrite clean_append, clean_str by lia; reflexivity).
    rewrite (findall_single _ _ (match_at_unsigned "" _ eq_refl Ds Ts)).
    apply (parse_loop_ok _ [(1, sides, 0)] []).
    + cbn [convert_all]. now rewrite convert_match_default_count by lia.
    + repeat constructor; unfold count_ok, sides_ok; lia.
  - unfold parse_dice_expression.
    replace (clean ("d" ++ Py.str sides ++ Py.format_plus_d modifier))
      with ("" ++ "d" ++ Py.str sides ++ Py.format_plus_d modifier)
      by (rewrite !clean_append, clean_str, clean_format_plus_d by lia;
          reflexivity).
    assert (Hfind : findall pattern 3
                      ("" ++ "d" ++ Py.str sides
                          ++ Py.format_plus_d modifier)
                    = [[""; Py.str sides; Py.format_plus_d modifier]]).
    { destruct (format_plus_d_shape modifier)
        as (sg & dm & -> & Hsg & Dm & Tm).
      exact (findall_single _ _
               (match_at_signed "" _ sg dm eq_refl Ds Ts Hsg Dm Tm)). }
    rewrite Hfind.
    apply (parse_loop_ok _ [(1, sides, modifier)] []).
    + cbn [convert_all]. now rewrite convert_match_default_signed by lia.
    + repeat constructor; unfold count_ok, sides_ok; lia.
Qed.

Lemma parse_default_count_witness :
  1 <= 20 <= 1000 /\
  parse_dice_expression "d20" = Ok [(1, 20, 0)] /\
  parse_dice_expression "d20-1" = Ok [(1, 20, -1)].
Proof.
  split; [lia|].
  exact (parse_default_count 20 (-1) ltac:(lia)).
Defined.

(** ** Text in front of the terms *)

Lemma inert_char_clean (c : ascii) (s : string) :
  inert_char c = true ->
  clean (String c s) = clean s
  \/ exists x, clean (String c s) = String x (clean s) /\
               Py.is_digit x = false /\ Ascii.eqb x "d" = false.
Proof.
  destruct c as [[|] [|] [|] [|] [|] [|] [|] [|]]; intros H;
    try discriminate H;
    first [ left; reflexivity
          | right; eexists; split; [reflexivity|]; split; reflexivity ].
Qed.

Lemma findall_inert_prefix (junk s : string) :
  inert junk = true ->
  findall pattern 3 (clean (junk ++ s)) = findall pattern 3 (clean s).
Proof.
  induction junk as [|c junk IH]; intros H; [reflexivity|].
  cbn [inert] in H. apply andb_true_iff in H as [Hc Hj].
  cbn [append].
  destruct (inert_char_clean c (junk ++ s) Hc) as [->|(x & -> & Hd & Hx)].
  - exact (IH Hj).
  - rewrite (findall_nomatch _ _ (match_at_not_d x _ Hd Hx)). exact (IH Hj).
Qed.

(** X5.  Text in front of an expression that holds no digit and no
    letter d (in either case) is ignored: the matches are the same, and
    when the expression holds a term the parse is the same. *)
Theorem parse_ignores_inert_prefix (junk expression : string) :
  inert junk = true ->
  findall pattern 3 (clean (junk ++ expression))
  = findall pattern 3 (clean expression)
  /\ (has_term_start (clean expression) = true ->
      parse_dice_expression (junk ++ expression)
      = parse_dice_expression expression).
Proof.
  intros H. pose proof (findall_inert_prefix junk expression H) as E.
  split; [exact E|]. intros Hs.
  unfold parse_dice_expression. rewrite E.
  destruct (findall pattern 3 (clean expression)) as [|m ms] eqn:F;
    [|reflexivity].
  apply findall_nil_iff in F. congruence.
Qed.

Lemma parse_ignores_inert_prefix_witness :
  inert "Roll: " = true /\
  parse_dice_expression "Roll: 2d6+3" = parse_dice_expression "2d6+3".
Proof.
  split; [reflexivity|].
  exact (proj2 (parse_ignores_inert_prefix "Roll: " "2d6+3" eq_refl)
           eq_refl).
Defined.

(** ** How many terms a text can hold *)

Lemma length_take_drop (s : string) :
  (String.length (take_digits s) + String.length (drop_digits s))%nat
  = String.length s.
Proof. now rewrite <- length_append, take_drop_digits. Qed.

Lemma match_at_consumes (s : string) gs rest :
  match_at s = Some (gs, rest) ->
  (String.length rest + 2 <= String.length s)%nat.
Proof.
  unfold match_at. intros H.
  pose proof (length_take_drop s) as Ls.
  destruct (drop_digits s) as [|d s2]; [discriminate|].
  destruct d as [[|] [|] [|] [|] [|] [|] [|] [|]]; try discriminate.
  pose proof (length_take_drop s2) as L2.
  destruct (take_digits s2) as [|b t2]; [discriminate|]. cbn [truthy] in H.
  cbn [String.length] in Ls, L2.
  destruct (drop_digits s2) as [|sg s4].
  - injection H as _ <-. cbn [String.length]. lia.
  - pose proof (length_take_drop s4) as L4.
    destruct (is_sign sg && truthy (take_digits s4));
      injection H as _ <-; cbn [String.length] in *; lia.
Qed.

Lemma findall_length (s : string) :
  (2 * List.length (findall pattern 3 s) <= String.length s)%nat.
Proof.
  apply (findall_ind
           (fun s ms => (2 * List.length ms <= String.length s)%nat)).
  - simpl. lia.
  - intros s0 gs rest H IH. apply match_at_consumes in H.
    cbn [List.length]. lia.
  - intros x s0 _ IH. cbn [String.length]. lia.
Qed.

Lemma length_lower (s : string) :
  String.length (Py.lower s) = String.length s.
Proof. induction s as [|c s IH]; simpl; [reflexivity | now rewrite IH]. Qed.

Lemma length_replace_space (s : string) :
  (String.length (Py.replace " " "" s) <= String.length s)%nat.
Proof.
  induction s as [|c s IH]; simpl; [lia|].
  destruct (Ascii.eqb c " "); simpl; lia.
Qed.

Lemma length_clean (s : string) :
  (String.length (clean s) <= String.length s)%nat.
Proof. unfold clean. rewrite length_lower. apply length_replace_space. Qed.

Lemma dice_count_bound (ts : list component) :
  Forall in_bounds ts -> (dice_count ts <= 100 * List.length ts)%nat.
Proof.
  induction 1 as [|[[count sides] modifier] ts [Hc _] _ IH];
    cbn [dice_count List.length]; [lia|].
  unfold count_ok in Hc. lia.
Qed.

(** X6.  A text of n characters parses to at most n/2 terms and so asks
    for at most 50*n dice; the requests the API accepts hold at most 100
    characters (models.py, DiceRollRequest), hence at most 50 terms and
    5000 dice. *)
Theorem parse_size_bound (expression : string) (ts : list component) :
  parse_dice_expression expression = Ok ts ->
  (2 * List.length ts <= String.length expression)%nat
  /\ (dice_count ts <= 50 * String.length expression)%nat
  /\ ((String.length expression <= 100)%nat ->
      (List.length ts <= 50)%nat /\ (dice_count ts <= 5000)%nat).
Proof.
  intros H. destruct (parse_ok_inv _ _ H) as [Hex Hb].
  pose proof (convert_all_length _ _ Hex) as Hlen.
  pose proof (findall_length (clean expression)) as Hf.
  pose proof (length_clean expression) as Hc.
  pose proof (dice_count_bound ts Hb) as Hd.
  rewrite <- Hlen in Hf. repeat split; lia.
Qed.

Lemma parse_size_bound_witness :
  parse_dice_expression "100d6,100d8" = Ok [(100, 6, 0); (100, 8, 0)] /\
  (dice_count [(100, 6, 0); (100, 8, 0)]%Z <= 50 * 11)%nat.
Proof.
  assert (H : parse_dice_expression "100d6,100d8"
              = Ok [(100, 6, 0); (100, 8, 0)]) by reflexivity.
  split; [exact H|].
  exact (proj1 (proj2 (parse_size_bound _ _ H))).
Defined.

(** ** Cleaning twice *)

Lemma lower_char_idempotent (c : ascii) :
  Py.lower_char (Py.lower_char c) = Py.lower_char c.
Proof. destruct c as [[|] [|] [|] [|] [|] [|] [|] [|]]; reflexivity. Qed.

Lemma lower_char_space (c : ascii) :
  Ascii.eqb c " " = false -> Ascii.eqb (Py.lower_char c) " " = false.
Proof.
  destruct c as [[|] [|] [|] [|] [|] [|] [|] [|]]; intros H;
    try discriminate H; reflexivity.
Qed.

Lemma clean_idempotent (s : string) : clean (clean s) = clean s.
Proof.
  unfold clean. induction s as [|c s IH]; [reflexivity|].
  cbn [Py.replace]. destruct (Ascii.eqb c " ") eqn:E.
  - exact IH.
  - cbn [Py.lower Py.replace]. rewrite (lower_char_space c E).
    cbn [Py.lower]. now rewrite lower_char_idempotent, IH.
Qed.

(** X7.  Cleaning is idempotent, so the cleaned text, which is what the
    InvalidExpression message shows, parses exactly as the original. *)
Theorem parse_clean_idempotent (expression : string) :
  clean (clean expression) = clean expression
  /\ parse_dice_expression (clean expression)
     = parse_dice_expression expression.
Proof.
  split; [apply clean_idempotent|].
  unfold parse_dice_expression. now rewrite clean_idempotent.
Qed.

(** ** Totals and draws of several terms *)


Lemma forward_forward (g : rng) (a b : nat) :
  forward (forward g a) b = forward g (a + b).
Proof. unfold forward. cbn. now rewrite Nat.add_assoc. Qed.

Lemma forward_zero (g : rng) : forward g 0 = g.
Proof. destruct g. unfold forward. cbn. now rewrite Nat.add_0_r. Qed.

Lemma roll_list_state (sides : Z) (n : nat) (g : rng) :
  1 <= sides -> snd (roll_list sides n g) = forward g n.
Proof.
  intros Hs. revert g. induction n as [|n IH]; intros g.
  - cbn. now rewrite forward_zero.
  - cbn [roll_list]. unfold bindM at 1.
    destruct (randint_ok sides g Hs) as (r & -> & _).
    unfold bindM at 1. specialize (IH (advance g)).
    destruct (roll_list sides n (advance g)) as [[rs|e] g1]; cbn in IH |- *;
      rewrite IH; unfold forward, advance; cbn; f_equal; lia.
Qed.

Lemma roll_loop_state (ts : list component) :
  Forall in_bounds ts ->
  forall (total : Z) (parts : list string) (g : rng),
    snd (roll_loop ts total parts g) = forward g (dice_count ts).
Proof.
  induction 1 as [|[[count sides] modifier] ts [Hc Hs] _ IH];
    intros total parts g.
  - cbn. now rewrite forward_zero.
  - unfold sides_ok in Hs. cbn [roll_loop dice_count]. unfold bindM at 1.
    pose proof (roll_list_state sides (Z.to_nat count) g (proj1 Hs)) as Hst.
    destruct (roll_list_ok sides (Z.to_nat count) g (proj1 Hs))
      as (draws & g1 & Hroll & _).
    rewrite Hroll in Hst |- *. cbn [snd] in Hst. subst g1.
    unfold bindM at 1, lift. rewrite breakdown_part_eq.
    rewrite IH. apply forward_forward.
Qed.

Lemma evaluate_state (ts : list component) (g : rng) :
  Forall in_bounds ts -> snd (evaluate ts g) = forward g (dice_count ts).
Proof.
  intros H. unfold evaluate, bindM.
  pose proof (roll_loop_state ts H 0 [] g) as Hst.
  destruct (roll_loop ts 0 [] g) as [[[total parts]|e] g1];
    cbn [snd] in Hst |- *; exact Hst.
Qed.



Lemma roll_dice_state (expression : string) (g : rng)
    (ts : list component) :
  parse_dice_expression expression = Ok ts ->
  snd (roll_dice expression g) = forward g (dice_count ts).
Proof.
  intros H. destruct (parse_ok_inv _ _ H) as [_ Hb].
  pose proof (evaluate_state ts g Hb) as Hst.
  unfold roll_dice, bindM, lift. rewrite H.
  destruct (evaluate ts g) as [[[total bd]|e] g1]; cbn [snd] in *;
    exact Hst.
Qed.

(** X9.  [roll_dice] calls [random.randint] once per die and no more:
    on an expression that parses to [ts] it leaves the generator advanced
    by the sum of the counts; on an expression that does not parse it
    draws nothing. *)
Theorem roll_dice_draws (expression : string) (g : rng) :
  (forall ts, parse_dice_expression expression = Ok ts ->
              snd (roll_dice expression g) = forward g (dice_count ts))
  /\ (forall e, parse_dice_expression expression = Raise e ->
                snd (roll_dice expression g) = g).
Proof.
  split.
  - intros ts H. exact (roll_dice_state expression g ts H).
  - intros e H. now rewrite (roll_dice_raises expression g e H).
Qed.

Lemma roll_dice_draws_witness :
  parse_dice_expression "3d6 d20" = Ok [(3, 6, 0); (1, 20, 0)] /\
  cursor (snd (roll_dice "3d6 d20" Sample.sample_rng)) = 4%nat.
Proof.
  split; [reflexivity|].
  now rewrite (proj1 (roll_dice_draws "3d6 d20" Sample.sample_rng)
                 [(3, 6, 0); (1, 20, 0)] eq_refl).
Defined.


(** ** Several terms separated by commas *)

Lemma clean_render_term (t : component) :
  in_bounds t -> clean (render_term t) = render_term t.
Proof.
  destruct t as [[count sides] modifier]. intros [Hc Hs].
  unfold count_ok, sides_ok in *. unfold render_term.
  rewrite !clean_append, !clean_str, clean_format_plus_d by lia.
  reflexivity.
Qed.

Lemma match_at_render_term (t : component) (rest : string) :
  in_bounds t -> take_digits rest = "" ->
  match_at (render_term t ++ rest) = Some (groups_of t, rest).
Proof.
  destruct t as [[count sides] modifier]. intros [Hc Hs] Hr.
  unfold count_ok, sides_ok in *. unfold render_term, groups_of.
  destruct (str_shape count ltac:(lia)) as [Dc _].
  destruct (str_shape sides ltac:(lia)) as [Ds Ts].
  destruct (format_plus_d_shape modifier) as (sg & dm & -> & Hsg & Dm & Tm).
  repeat rewrite append_assoc. cbn [append]. repeat rewrite append_assoc.
  exact (match_at_signed_then _ _ sg dm rest Dc Ds Ts Hsg Dm Tm Hr).
Qed.

Lemma clean_join_render (ts : list component) :
  Forall in_bounds ts ->
  clean (Py.join "," (map render_term ts))
  = Py.join "," (map render_term ts).
Proof.
  induction 1 as [|t ts Ht Hts IH]; [reflexivity|].
  cbn [map Py.join]. cbn [map] in IH.
  destruct (map render_term ts) as [|r rs] eqn:E.
  - exact (clean_render_term t Ht).
  - rewrite !clean_append, (clean_render_term t Ht), IH. reflexivity.
Qed.

Lemma findall_join_render (ts : list component) :
  Forall in_bounds ts ->
  findall pattern 3 (Py.join "," (map render_term ts)) = map groups_of ts.
Proof.
  induction 1 as [|t ts Ht Hts IH]; [reflexivity|].
  cbn [map Py.join]. cbn [map] in IH.
  destruct (map render_term ts) as [|r rs] eqn:E.
  - destruct ts; [|discriminate]. cbn [map].
    rewrite <- (append_nil_r (render_term t)).
    now rewrite (findall_single _ _ (match_at_render_term t "" Ht eq_refl)).
  - rewrite (findall_match _ _ _
               (match_at_render_term t ("," ++ Py.join "," (r :: rs)) Ht
                  eq_refl)).
    cbn [append].
    rewrite (findall_nomatch _ _ (match_at_not_d "," _ eq_refl eq_refl)).
    now rewrite IH.
Qed.

Lemma convert_all_groups_of (ts : list component) :
  Forall in_bounds ts -> convert_all (map groups_of ts) = Ok ts.
Proof.
  induction 1 as [|[[count sides] modifier] ts [Hc Hs] _ IH];
    [reflexivity|].
  unfold count_ok, sides_ok in *. cbn [map convert_all groups_of].
  rewrite convert_match_rendered by lia. cbn [bind]. now rewrite IH.
Qed.

(** X19.  Round trip of several terms: for every non-empty list of terms
    within their bounds, the texts "{count}d{sides}{modifier:+d}" of the
    terms joined with commas parse back to exactly that list. *)
Theorem parse_join_roundtrip (ts : list component) :
  ts <> [] -> Forall in_bounds ts ->
  parse_dice_expression (Py.join "," (map render_term ts)) = Ok ts.
Proof.
  intros Hne Hb. unfold parse_dice_expression.
  rewrite (clean_join_render ts Hb), (findall_join_render ts Hb).
  destruct ts as [|t ts]; [contradiction|].
  change (map groups_of (t :: ts)) with (groups_of t :: map groups_of ts).
  change (groups_of t :: map groups_of ts) with (map groups_of (t :: ts)).
  cbn [map].
  exact (parse_loop_ok (map groups_of (t :: ts)) (t :: ts) []
           (convert_all_groups_of _ Hb) Hb).
Qed.

Lemma parse_join_roundtrip_witness :
  ([(1, 4, 0); (2, 6, -3)] <> [] /\
   Forall in_bounds [(1, 4, 0); (2, 6, -3)]) /\
  parse_dice_expression "1d4+0,2d6-3" = Ok [(1, 4, 0); (2, 6, -3)].
Proof.
  assert (Hne : [(1, 4, 0); (2, 6, -3)] <> []) by discriminate.
  assert (Hb : Forall in_bounds [(1, 4, 0); (2, 6, -3)])
    by (repeat constructor; unfold count_ok, sides_ok; lia).
  split; [split; assumption|].
  exact (parse_join_roundtrip [(1, 4, 0); (2, 6, -3)] Hne Hb).
Defined.

(* ================================================================== *)
(** * Properties of the endpoints of main.py *)
(* ================================================================== *)

(** ** Lists of rows *)

Lemma NoDup_map_filter {Row Key : Type} (key : Row -> Key)
    (keep : Row -> bool) (rows : list Row)
    (Hkeys : NoDup (map key rows)) :
  NoDup (map key (filter keep rows)).
Proof.
  induction rows as [|r rows IH]; simpl; [constructor|].
  inversion Hkeys as [|? ? Hn Hl]; subst.
  destruct (keep r); simpl; [|now apply IH].
  constructor; [|now apply IH].
  intros Hin. apply Hn. apply in_map_iff in Hin as (x & Hx & Hf).
  apply filter_In in Hf as [Hf _]. apply in_map_iff. now exists x.
Qed.

Lemma NoDup_map_snoc {A B : Type} (f : A -> B) (l : list A) (x : A) :
  NoDup (map f l) -> ~ In (f x) (map f l) -> NoDup (map f (l ++ [x])).
Proof.
  intros Hl Hx. rewrite map_app. cbn [map].
  apply NoDup_app; [exact Hl | repeat constructor; intros [] |].
  intros y Hy [<-|[]]. contradiction.
Qed.

Lemma existsb_eqb_false {A : Type} (f : A -> string) (l : list A)
    (id : string) :
  existsb (fun a => String.eqb (f a) id) l = false -> ~ In id (map f l).
Proof.
  intros H Hin. apply in_map_iff in Hin as (a & <- & Ha).
  assert (E : existsb (fun a0 => String.eqb (f a0) (f a)) l = true).
  { apply existsb_exists. exists a. split; [exact Ha|].
    apply String.eqb_refl. }
  congruence.
Qed.

Lemma query_table_some (id : Z) (db : Api.Db) (t : Api.Table) :
  Api.query_table id db = Some t ->
  In t (Api.tables db) /\ Api.table_id t = id.
Proof.
  unfold Api.query_table. intros H. apply find_some in H as [Hin Heq].
  split; [exact Hin|]. now apply Z.eqb_eq.
Qed.

Lemma query_token_some (tid : string) (id : Z) (db : Api.Db)
    (k : Api.Token) :
  Api.query_token tid id db = Some k ->
  In k (Api.tokens db) /\ Api.token_id k = tid /\ Api.token_table_id k = id.
Proof.
  unfold Api.query_token. intros H. apply find_some in H as [Hin Heq].
  apply andb_true_iff in Heq as [E1 E2].
  repeat split; [exact Hin | now apply String.eqb_eq | now apply Z.eqb_eq].
Qed.

Lemma store_token_ids (token : Api.Token) (l : list Api.Token) :
  map Api.token_id
    (map (fun k => if String.eqb (Api.token_id k) (Api.token_id token)
                   then token else k) l)
  = map Api.token_id l.
Proof.
  induction l as [|k l IH]; simpl; [reflexivity|]. rewrite IH. f_equal.
  destruct (String.eqb_spec (Api.token_id k) (Api.token_id token));
    congruence.
Qed.

Lemma in_map_filter_ne (l : list Api.Table) (x id : Z) :
  In x (map Api.table_id l) -> x <> id ->
  In x (map Api.table_id
          (filter (fun t => negb (Api.table_id t =? id)) l)).
Proof.
  intros Hin Hne. apply in_map_iff in Hin as (t & <- & Ht).
  apply in_map_iff. exists t. split; [reflexivity|].
  apply filter_In. split; [exact Ht|].
  apply negb_true_iff, Z.eqb_neq. exact Hne.
Qed.

(** ** The consistency of the database *)

Lemma create_table_consistent name new_id created updated db :
  Api.consistent db -> ~ In new_id (map Api.table_id (Api.tables db)) ->
  Api.consistent (snd (Api.create_table name new_id created updated db)).
Proof.
  intros (Ht & Hk & Hm & Hkt & Hmt) Hfresh. unfold Api.consistent.
  cbn [Api.create_table snd Api.tables Api.tokens Api.chat_messages].
  repeat split; try assumption.
  - now apply NoDup_map_snoc.
  - eapply Forall_impl; [|exact Hkt]. intros k Hin. cbv beta in *.
    rewrite map_app. apply in_or_app. now left.
  - eapply Forall_impl; [|exact Hmt]. intros m Hin. cbv beta in *.
    rewrite map_app. apply in_or_app. now left.
Qed.

Lemma delete_table_consistent id db :
  Api.consistent db -> Api.consistent (snd (Api.delete_table id db)).
Proof.
  intros Hc. unfold Api.delete_table.
  destruct (Api.query_table id db) as [t|] eqn:E; [|exact Hc].
  destruct Hc as (Ht & Hk & Hm & Hkt & Hmt). unfold Api.consistent.
  cbn [snd Api.tables Api.tokens Api.chat_messages].
  repeat split; try now apply NoDup_map_filter.
  - apply Forall_forall. intros k Hin. apply filter_In in Hin as [Hin Hne].
    apply negb_true_iff, Z.eqb_neq in Hne.
    apply in_map_filter_ne; [|exact Hne].
    exact (proj1 (Forall_forall _ _) Hkt k Hin).
  - apply Forall_forall. intros m Hin. apply filter_In in Hin as [Hin Hne].
    apply negb_true_iff, Z.eqb_neq in Hne.
    apply in_map_filter_ne; [|exact Hne].
    exact (proj1 (Forall_forall _ _) Hmt m Hin).
Qed.

Lemma create_token_consistent id data new_id created updated db :
  Api.consistent db ->
  Api.consistent
    (snd (Api.create_token id data new_id created updated db)).
Proof.
  intros Hc. unfold Api.create_token.
  destruct (Api.query_table id db) as [t|] eqn:E; [|exact Hc].
  destruct (existsb _ (Api.tokens db)) eqn:Ex; [exact Hc|].
  destruct Hc as (Ht & Hk & Hm & Hkt & Hmt). unfold Api.consistent.
  cbn [snd Api.tables Api.tokens Api.chat_messages].
  repeat split; try assumption.
  - apply NoDup_map_snoc; [exact Hk|]. cbn [Api.token_id].
    now apply existsb_eqb_false.
  - apply Forall_app. split; [exact Hkt|]. constructor; [|constructor].
    cbn [Api.token_table_id]. apply query_table_some in E as [Hin <-].
    now apply in_map.
Qed.

Lemma update_token_consistent id tid u now db :
  Api.consistent db ->
  Api.consistent (snd (Api.update_token id tid u now db)).
Proof.
  intros Hc. unfold Api.update_token.
  destruct (Api.query_token tid id db) as [k|] eqn:E; [|exact Hc].
  destruct Hc as (Ht & Hk & Hm & Hkt & Hmt). unfold Api.consistent.
  cbn [snd Api.store_token Api.tables Api.tokens Api.chat_messages].
  repeat split; try assumption.
  - now rewrite store_token_ids.
  - apply query_token_some in E as (Hin & _ & _).
    apply Forall_forall. intros x Hx.
    apply in_map_iff in Hx as (y & Hy & Hyin).
    destruct (String.eqb (Api.token_id y) _); subst x.
    + cbn [Api.apply_update Api.token_table_id].
      exact (proj1 (Forall_forall _ _) Hkt k Hin).
    + exact (proj1 (Forall_forall _ _) Hkt y Hyin).
Qed.

Lemma delete_token_consistent id tid db :
  Api.consistent db -> Api.consistent (snd (Api.delete_token id tid db)).
Proof.
  intros Hc. unfold Api.delete_token.
  destruct (Api.query_token tid id db) as [k|] eqn:E; [|exact Hc].
  destruct Hc as (Ht & Hk & Hm & Hkt & Hmt). unfold Api.consistent.
  cbn [snd Api.tables Api.tokens Api.chat_messages].
  repeat split; try assumption.
  - now apply NoDup_map_filter.
  - apply Forall_forall. intros x Hx. apply filter_In in Hx as [Hx _].
    exact (proj1 (Forall_forall _ _) Hkt x Hx).
Qed.

Lemma roll_dice_endpoint_consistent id expression new_id now db g :
  Api.consistent db ->
  Api.consistent
    (snd (fst (Api.roll_dice_endpoint id expression new_id now db g))).
Proof.
  intros Hc. unfold Api.roll_dice_endpoint.
  destruct (Api.query_table id db) as [t|] eqn:E; [|exact Hc].
  destruct (validate_dice_expression expression) as [[|]|e]; try exact Hc.
  destruct (roll_dice expression g) as [[[[total bd] ex]|[msg|msg]] g'];
    try exact Hc.
  destruct (existsb _ (Api.chat_messages db)) eqn:Ex; [exact Hc|].
  destruct Hc as (Ht & Hk & Hm & Hkt & Hmt). unfold Api.consistent.
  cbn [snd fst Api.tables Api.tokens Api.chat_messages].
  repeat split; try assumption.
  - apply NoDup_map_snoc; [exact Hm|]. cbn [Api.message_id].
    now apply existsb_eqb_false.
  - apply Forall_app. split; [exact Hmt|]. constructor; [|constructor].
    cbn [Api.message_table_id]. apply query_table_some in E as [Hin <-].
    now apply in_map.
Qed.

(** X11.  Every writing endpoint keeps the database consistent: primary
    keys stay unique and no token or chat message is left without its
    table, given that the database assigns an unused id to a new table. *)
Theorem handle_consistent (r : Api.request) (db : Api.Db) :
  Api.consistent db -> Api.fresh r db -> Api.consistent (Api.handle r db).
Proof.
  intros Hc Hf. destruct r; cbn [Api.handle Api.fresh] in *.
  - now apply create_table_consistent.
  - now apply delete_table_consistent.
  - now apply create_token_consistent.
  - now apply update_token_consistent.
  - now apply delete_token_consistent.
  - now apply roll_dice_endpoint_consistent.
Qed.

Lemma sample_db_consistent : Api.consistent Api.sample_db.
Proof.
  unfold Api.consistent, Api.sample_db. cbn.
  repeat split; repeat constructor; cbn; intuition discriminate.
Qed.

Lemma handle_consistent_witness :
  (Api.consistent Api.sample_db /\
   Api.fresh (Api.DeleteTable 1) Api.sample_db) /\
  Api.consistent (Api.handle (Api.DeleteTable 1) Api.sample_db).
Proof.
  split; [split; [exact sample_db_consistent | exact I]|].
  exact (handle_consistent (Api.DeleteTable 1) Api.sample_db
           sample_db_consistent I).
Defined.

(** ** Tokens belong to their table *)

Lemma NoDup_map_inj {A B : Type} (f : A -> B) (l : list A) (a b : A) :
  NoDup (map f l) -> In a l -> In b l -> f a = f b -> a = b.
Proof.
  induction l as [|x l IH]; simpl; intros H Ha Hb E; [contradiction|].
  inversion H as [|? ? Hn Hl]; subst.
  destruct Ha as [->|Ha], Hb as [->|Hb]; try reflexivity.
  - elim Hn. rewrite E. now apply in_map.
  - elim Hn. rewrite <- E. now apply in_map.
  - now apply IH.
Qed.

Lemma query_token_other_table (db : Api.Db) (k : Api.Token) (id : Z) :
  Api.consistent db -> In k (Api.tokens db) ->
  Api.token_table_id k <> id ->
  Api.query_token (Api.token_id k) id db = None.
Proof.
  intros (_ & Hk & _) Hin Hne.
  destruct (Api.query_token (Api.token_id k) id db) as [k'|] eqn:E;
    [|reflexivity].
  apply query_token_some in E as (Hin' & Hid & Htab).
  pose proof (NoDup_map_inj _ _ _ _ Hk Hin' Hin Hid) as ->.
  contradiction.
Qed.

(** X12.  A token can be changed or deleted only through the table it is
    on: with the id of another table, [update_token] and [delete_token]
    answer 404 "Token not found" and leave the database as it is. *)
Theorem token_scoped_to_table (db : Api.Db) (k : Api.Token) (id : Z)
    (u : Api.TokenUpdate) (now : Api.datetime) :
  Api.consistent db ->
  In k (Api.tokens db) ->
  Api.token_table_id k <> id ->
  Api.update_token id (Api.token_id k) u now db
  = (Api.HTTPException 404 "Token not found", db)
  /\ Api.delete_token id (Api.token_id k) db
     = (Api.HTTPException 404 "Token not found", db).
Proof.
  intros Hc Hin Hne.
  pose proof (query_token_other_table db k id Hc Hin Hne) as E.
  unfold Api.update_token, Api.delete_token. now rewrite E.
Qed.

Lemma token_scoped_to_table_witness :
  (Api.consistent Api.sample_db /\
   In (Api.mkToken "t-b" 2 "Orc" (Api.float_of_bits 0) (Api.float_of_bits 0)
         None true 40 40) (Api.tokens Api.sample_db) /\
   2 <> 1) /\
  Api.delete_token 1 "t-b" Api.sample_db
  = (Api.HTTPException 404 "Token not found", Api.sample_db).
Proof.
  assert (Hin : In (Api.mkToken "t-b" 2 "Orc" (Api.float_of_bits 0)
                      (Api.float_of_bits 0) None true 40 40)
                   (Api.tokens Api.sample_db))
    by (right; left; reflexivity).
  assert (Hne : 2 <> 1) by lia.
  split; [split; [exact sample_db_consistent | split; assumption]|].
  exact (proj2 (token_scoped_to_table Api.sample_db _ 1
                  (Api.mkTokenUpdate None None None None None) 0
                  sample_db_consistent Hin Hne)).
Defined.

(** ** Updating a token *)




(** ** Deleting a table *)

Lemma find_filter {A : Type} (p q : A -> bool) (l : list A) :
  (forall x, p x = true -> q x = true) ->
  find p (filter q l) = find p l.
Proof.
  intros H. induction l as [|x l IH]; simpl; [reflexivity|].
  destruct (q x) eqn:Eq; simpl.
  - destruct (p x); [reflexivity | exact IH].
  - destruct (p x) eqn:Ep; [|exact IH].
    rewrite (H x Ep) in Eq. discriminate.
Qed.

Lemma find_filter_none {A : Type} (p q : A -> bool) (l : list A) :
  (forall x, p x = true -> q x = false) ->
  find p (filter q l) = None.
Proof.
  intros H. induction l as [|x l IH]; simpl; [reflexivity|].
  destruct (q x) eqn:Eq; simpl; [|exact IH].
  destruct (p x) eqn:Ep; [|exact IH].
  rewrite (H x Ep) in Eq. discriminate.
Qed.

Lemma filter_filter {A : Type} (p q : A -> bool) (l : list A) :
  (forall x, p x = true -> q x = true) ->
  filter p (filter q l) = filter p l.
Proof.
  intros H. induction l as [|x l IH]; simpl; [reflexivity|].
  destruct (q x) eqn:Eq; simpl.
  - now rewrite IH.
  - destruct (p x) eqn:Ep; [|exact IH].
    rewrite (H x Ep) in Eq. discriminate.
Qed.

(** X14.  Deleting a table deletes its tokens and its chat with it:
    afterwards the table and its token list answer 404 and no row of
    the table is left, while every other table, with its tokens, reads
    as before. *)
Theorem delete_table_cascade (db : Api.Db) (id : Z) (t : Api.Table) :
  Api.query_table id db = Some t ->
  let db' := snd (Api.delete_table id db) in
  fst (Api.delete_table id db) = Api.Return "Table deleted successfully"
  /\ Api.get_table id db' = Api.HTTPException 404 "Table not found"
  /\ Api.get_table_tokens id db' = Api.HTTPException 404 "Table not found"
  /\ (forall k, In k (Api.tokens db') <->
                In k (Api.tokens db) /\ Api.token_table_id k <> id)
  /\ (forall m, In m (Api.chat_messages db') <->
                In m (Api.chat_messages db) /\ Api.message_table_id m <> id)
  /\ (forall other, other <> id ->
        Api.get_table other db' = Api.get_table other db
        /\ Api.get_table_tokens other db' = Api.get_table_tokens other db).
Proof.
  intros H db'. pose proof (query_table_some _ _ _ H) as [Hin Hid].
  subst db'. unfold Api.delete_table. rewrite H. rewrite Hid.
  cbn [fst snd].
  assert (Hq : Api.query_table id
                 (Api.mkDb
                    (filter (fun t0 => negb (Api.table_id t0 =? id))
                       (Api.tables db))
                    (filter (fun k => negb (Api.token_table_id k =? id))
                       (Api.tokens db))
                    (filter (fun m => negb (Api.message_table_id m =? id))
                       (Api.chat_messages db))) = None).
  { unfold Api.query_table. cbn [Api.tables]. apply find_filter_none.
    intros x Hx. now rewrite Hx. }
  split; [reflexivity|].
  split; [unfold Api.get_table; now rewrite Hq|].
  split; [unfold Api.get_table_tokens; now rewrite Hq|].
  split.
  { intros k. cbn [Api.tokens]. rewrite filter_In.
    now rewrite negb_true_iff, Z.eqb_neq. }
  split.
  { intros m. cbn [Api.chat_messages]. rewrite filter_In.
    now rewrite negb_true_iff, Z.eqb_neq. }
  intros other Hne.
  set (db1 := Api.mkDb
                (filter (fun t0 => negb (Api.table_id t0 =? id))
                   (Api.tables db))
                (filter (fun k => negb (Api.token_table_id k =? id))
                   (Api.tokens db))
                (filter (fun m => negb (Api.message_table_id m =? id))
                   (Api.chat_messages db))) in *.
  assert (Hq' : Api.query_table other db1 = Api.query_table other db).
  { unfold Api.query_table, db1. cbn [Api.tables]. apply find_filter.
    intros x Hx. apply Z.eqb_eq in Hx. apply negb_true_iff, Z.eqb_neq.
    lia. }
  unfold Api.get_table, Api.get_table_tokens.
  rewrite Hq'. split; [reflexivity|].
  destruct (Api.query_table other db); [|reflexivity].
  unfold db1. cbn [Api.tokens]. f_equal. apply filter_filter.
  intros x Hx. apply Z.eqb_eq in Hx. apply negb_true_iff, Z.eqb_neq. lia.
Qed.

Lemma delete_table_cascade_witness :
  Api.query_table 1 Api.sample_db = Some (Api.mkTable 1 "Mesa" 10 10)
  /\ Api.get_table_tokens 1 (snd (Api.delete_table 1 Api.sample_db))
     = Api.HTTPException 404 "Table not found".
Proof.
  split; [reflexivity|].
  exact (proj1 (proj2 (proj2 (delete_table_cascade Api.sample_db 1 _
                                eq_refl)))).
Defined.

(** ** Creating rows *)

Lemma find_snoc_fresh {A : Type} (p : A -> bool) (l : list A) (x : A) :
  (forall y, In y l -> p y = false) -> p x = true ->
  find p (l ++ [x]) = Some x.
Proof.
  intros Hl Hx. induction l as [|y l IH]; simpl; [now rewrite Hx|].
  rewrite (Hl y (or_introl eq_refl)). apply IH.
  intros z Hz. apply Hl. now right.
Qed.

Lemma find_snoc_other {A : Type} (p : A -> bool) (l : list A) (x : A) :
  p x = false -> find p (l ++ [x]) = find p l.
Proof.
  intros Hx. induction l as [|y l IH]; simpl; [now rewrite Hx|].
  destruct (p y); [reflexivity | exact IH].
Qed.



(** X16.  A table created under an id the database had not used can be
    read back, starts without tokens when the database is consistent,
    and leaves every other table, with its tokens, as it was. *)
Theorem create_table_then_get (db : Api.Db) (name : string) (new_id : Z)
    (created updated : Api.datetime) :
  Api.consistent db ->
  ~ In new_id (map Api.table_id (Api.tables db)) ->
  let db' := snd (Api.create_table name new_id created updated db) in
  Api.get_table new_id db'
  = Api.Return (Api.mkTable new_id name created updated)
  /\ Api.get_table_tokens new_id db' = Api.Return []
  /\ (forall other, other <> new_id ->
        Api.get_table other db' = Api.get_table other db
        /\ Api.get_table_tokens other db' = Api.get_table_tokens other db).
Proof.
  intros Hc Hfresh db'. subst db'. cbn [Api.create_table snd].
  assert (Hq : Api.query_table new_id
                 (Api.mkDb
                    (Api.tables db
                       ++ [Api.mkTable new_id name created updated])
                    (Api.tokens db) (Api.chat_messages db))
               = Some (Api.mkTable new_id name created updated)).
  { unfold Api.query_table. cbn [Api.tables]. apply find_snoc_fresh.
    - intros y Hy. apply Z.eqb_neq. intros E. elim Hfresh.
      rewrite <- E. now apply in_map.
    - cbn. apply Z.eqb_refl. }
  unfold Api.get_table, Api.get_table_tokens. rewrite Hq.
  split; [reflexivity|]. split.
  - cbn [Api.tokens]. f_equal. clear Hq.
    destruct Hc as (_ & _ & _ & Hkt & _).
    induction Hkt as [|k l Hk _ IH]; [reflexivity|]. cbn [filter].
    destruct (Z.eqb_spec (Api.token_table_id k) new_id) as [E|];
      [|exact IH].
    elim Hfresh. now rewrite <- E.
  - intros other Hne.
    assert (Hq' : Api.query_table other
                    (Api.mkDb
                       (Api.tables db
                          ++ [Api.mkTable new_id name created updated])
                       (Api.tokens db) (Api.chat_messages db))
                  = Api.query_table other db).
    { unfold Api.query_table. cbn [Api.tables]. apply find_snoc_other.
      cbn. apply Z.eqb_neq. lia. }
    rewrite Hq'. split; reflexivity.
Qed.

Lemma create_table_then_get_witness :
  (Api.consistent Api.sample_db /\
   ~ In 3 (map Api.table_id (Api.tables Api.sample_db))) /\
  Api.get_table 3 (snd (Api.create_table "Nova" 3 60 61 Api.sample_db))
  = Api.Return (Api.mkTable 3 "Nova" 60 61).
Proof.
  assert (Hf : ~ In 3 (map Api.table_id (Api.tables Api.sample_db)))
    by (cbn; lia).
  split; [split; [exact sample_db_consistent | exact Hf]|].
  exact (proj1 (create_table_then_get Api.sample_db "Nova" 3 60 61
                  sample_db_consistent Hf)).
Defined.

(** ** The roll endpoint with its chat message *)





(** ** Deleting a token *)

(** X20.  Deleting a token of the table removes the row of that id and
    nothing else: afterwards the token is not found, a second delete
    answers 404, and the tables, the chat and the other tokens are as
    before. *)
Theorem delete_token_found (db : Api.Db) (k : Api.Token) (id : Z)
    (tid : string) :
  Api.query_token tid id db = Some k ->
  let db' := snd (Api.delete_token id tid db) in
  fst (Api.delete_token id tid db) = Api.Return "Token deleted successfully"
  /\ Api.query_token tid id db' = None
  /\ Api.delete_token id tid db'
     = (Api.HTTPException 404 "Token not found", db')
  /\ Api.tables db' = Api.tables db
  /\ Api.chat_messages db' = Api.chat_messages db
  /\ (forall x, In x (Api.tokens db') <->
                In x (Api.tokens db) /\ Api.token_id x <> tid).
Proof.
  intros H db'. pose proof (query_token_some _ _ _ _ H) as (Hin & Hid & Htab).
  set (db1 := Api.mkDb (Api.tables db)
                (filter (fun x => negb (String.eqb (Api.token_id x) tid))
                   (Api.tokens db))
                (Api.chat_messages db)).
  assert (Hdel : Api.delete_token id tid db
                 = (Api.Return "Token deleted successfully", db1)).
  { unfold Api.delete_token. rewrite H, Hid. reflexivity. }
  subst db'. rewrite Hdel. cbn [fst snd].
  assert (Hq : Api.query_token tid id db1 = None).
  { unfold Api.query_token, db1. cbn [Api.tokens]. apply find_filter_none.
    intros x Hx. apply andb_true_iff in Hx as [Hx _]. now rewrite Hx. }
  split; [reflexivity|]. split; [exact Hq|].
  split; [unfold Api.delete_token; now rewrite Hq|].
  split; [reflexivity|]. split; [reflexivity|].
  intros x. unfold db1. cbn [Api.tokens]. rewrite filter_In, negb_true_iff.
  split; intros [Hx Hne]; (split; [exact Hx|]).
  - intros E. rewrite E, String.eqb_refl in Hne. discriminate.
  - now apply String.eqb_neq.
Qed.

Lemma delete_token_found_witness :
  Api.query_token "t-a" 1 Api.sample_db
  = Some (Api.mkToken "t-a" 1 "Goblin" (Api.float_of_bits 0)
            (Api.float_of_bits 0) (Some "red") false 30 30)
  /\ Api.query_token "t-a" 1 (snd (Api.delete_token 1 "t-a" Api.sample_db))
     = None.
Proof.
  split; [reflexivity|].
  exact (proj1 (proj2 (delete_token_found Api.sample_db _ 1 "t-a" eq_refl))).
Defined.
